(** * Sponsored payments and wallet selection of the MotusDAO hub

    A shallow embedding of [sendPaymentWithKernel] and [isEncodingError]
    (the payment module) and of [getEOAAddress] / [getEOAWallet]
    (lib/wallet-utils.ts), with the properties proved about them.

    Conventions of the embedding:
    - a JavaScript string is the list of its UTF-16 code units;
    - a [bigint] is a [Z];
    - an [async] function is a computation in the monad [Eff]: it either
      completes normally or throws (a rejected promise), and it leaves a
      trace of the calls made on the injected kernel client and of the
      [console.warn] / [console.error] lines.  The [console.log] progress
      lines are write-only diagnostics and are not recorded. *)

From Stdlib Require Import ZArith NArith List String Ascii Bool Lia.
Import ListNotations.

Set Implicit Arguments.

(* ================================================================== *)
(** * JavaScript strings *)
(* ================================================================== *)

Module Js.

(** A string value: its UTF-16 code units, in order. *)
Definition jsstring : Type := list N.

Definition continuation (c : ascii) : N := (N_of_ascii c - 128)%N.

(** String literals are written in this file as the source writes them;
    [lit] decodes the UTF-8 bytes of the literal into code units (a code
    point above U+FFFF becomes a surrogate pair). *)
Fixpoint lit (s : string) : jsstring :=
  match s with
  | EmptyString => []
  | String c0 r0 =>
    let b0 := N_of_ascii c0 in
    if (b0 <? 128)%N then b0 :: lit r0
    else
      match r0 with
      | EmptyString => []
      | String c1 r1 =>
        if (b0 <? 224)%N then ((b0 - 192) * 64 + continuation c1)%N :: lit r1
        else
          match r1 with
          | EmptyString => []
          | String c2 r2 =>
            if (b0 <? 240)%N
            then ((b0 - 224) * 4096 + continuation c1 * 64 + continuation c2)%N
                   :: lit r2
            else
              match r2 with
              | EmptyString => []
              | String c3 r3 =>
                let cp := ((b0 - 240) * 262144 + continuation c1 * 4096
                           + continuation c2 * 64 + continuation c3)%N in
                let v := (cp - 65536)%N in
                (55296 + v / 1024)%N :: (56320 + v mod 1024)%N :: lit r3
              end
          end
      end
  end.

(** Code units used on their own. *)
Definition LF : N := 10.
Definition QUOTE : N := 34.
Definition PLUS : N := 43.
Definition MINUS : N := 45.
Definition DOT : N := 46.
Definition ZERO : N := 48.

(** [!s] is false exactly for the non-empty strings. *)
Definition truthy (s : jsstring) : bool :=
  match s with [] => false | _ :: _ => true end.

(** [s === t] on strings. *)
Fixpoint strictEquals (s t : jsstring) : bool :=
  match s, t with
  | [], [] => true
  | c :: s', d :: t' => (c =? d)%N && strictEquals s' t'
  | _, _ => false
  end.

(** [s.startsWith(p)] *)
Fixpoint startsWith (s p : jsstring) {struct p} : bool :=
  match p with
  | [] => true
  | d :: p' =>
    match s with
    | [] => false
    | c :: s' => (c =? d)%N && startsWith s' p'
    end
  end.

(** [s.includes(p)] *)
Fixpoint includes (s p : jsstring) : bool :=
  startsWith s p ||
  match s with
  | [] => false
  | _ :: s' => includes s' p
  end.

(** [s.toLowerCase()].  The Basic Latin capitals A..Z are mapped to a..z;
    every other code unit is left as it is (the built-in also lowers
    letters outside Basic Latin, which none of the keywords searched for
    in this program contains). *)
Definition lowerUnit (c : N) : N :=
  if (65 <=? c)%N && (c <=? 90)%N then (c + 32)%N else c.

Definition toLowerCase (s : jsstring) : jsstring := map lowerUnit s.

(** [s.slice(a, b)] for [0 <= a <= b]. *)
Definition slice (s : jsstring) (a b : nat) : jsstring :=
  firstn (b - a) (skipn a s).

(** [s.padEnd(n, '0')] and [s.padStart(n, '0')]. *)
Definition padEnd0 (s : jsstring) (n : nat) : jsstring :=
  s ++ repeat ZERO (n - List.length s).

Definition padStart0 (s : jsstring) (n : nat) : jsstring :=
  repeat ZERO (n - List.length s) ++ s.

(** [s.split(sep)] for a one-character separator. *)
Fixpoint split (sep : N) (s : jsstring) : list jsstring :=
  match s with
  | [] => [[]]
  | c :: r =>
    if (c =? sep)%N then [] :: split sep r
    else
      match split sep r with
      | p :: ps => (c :: p) :: ps
      | [] => [[c]]
      end
  end.

(** The longest prefix whose units satisfy [f], and the rest. *)
Fixpoint span (f : N -> bool) (s : jsstring) : jsstring * jsstring :=
  match s with
  | [] => ([], [])
  | c :: r =>
    if f c then let '(a, b) := span f r in (c :: a, b) else ([], s)
  end.

Fixpoint dropWhile (f : N -> bool) (s : jsstring) : jsstring :=
  match s with
  | [] => []
  | c :: r => if f c then dropWhile f r else s
  end.

Definition isDigit (c : N) : bool := (48 <=? c)%N && (c <=? 57)%N.

(** The number written by a string of decimal digits (0 for the empty
    string). *)
Definition digitsValue (ds : jsstring) : N :=
  fold_left (fun acc c => (10 * acc + (c - 48))%N) ds 0%N.

(** Substring as a proposition: what "the message contains [p]" means. *)
Definition contains (s p : jsstring) : Prop :=
  exists a b, s = a ++ p ++ b.

End Js.
Import Js.

(* ================================================================== *)
(** * Numbers read from strings *)
(* ================================================================== *)

(** The result of [parseFloat]: [Decimal neg m e] is the double nearest
    to [(-1)^neg * m * 10^e], the value written by the literal that was
    read.  Only the tests the program applies to it are defined below. *)
Inductive JsNumber : Type :=
| NaN
| Infinity (negative : bool)
| Decimal (negative : bool) (mantissa : N) (exponent : Z).

(** WhiteSpace and LineTerminator code points, stripped by [parseFloat]
    from the start of its argument. *)
Definition isWhiteSpace (c : N) : bool :=
  existsb (N.eqb c)
    [9; 10; 11; 12; 13; 32; 160; 5760; 8232; 8233; 8239; 8287; 12288; 65279]%N
  || ((8192 <=? c)%N && (c <=? 8202)%N).

(** An optional leading sign. *)
Definition readSign (s : jsstring) : bool * jsstring :=
  match s with
  | c :: r =>
    if (c =? MINUS)%N then (true, r)
    else if (c =? PLUS)%N then (false, r)
    else (false, s)
  | [] => (false, s)
  end.

(** ExponentPart, when one is there: [e] or [E], an optional sign and at
    least one digit.  Anything else is not part of the literal. *)
Definition readExponent (s : jsstring) : Z :=
  match s with
  | c :: r =>
    if (c =? 101)%N || (c =? 69)%N then
      let '(neg, r') := readSign r in
      let '(ds, _) := span isDigit r' in
      match ds with
      | [] => 0%Z
      | _ => if neg then (- Z.of_N (digitsValue ds))%Z
             else Z.of_N (digitsValue ds)
      end
    else 0%Z
  | [] => 0%Z
  end.

(** [parseFloat(s)]: leading white space is skipped and the longest
    prefix that is a StrDecimalLiteral is read; [NaN] when there is none. *)
Definition parseFloat (s : jsstring) : JsNumber :=
  let '(neg, u) := readSign (dropWhile isWhiteSpace s) in
  if startsWith u (lit "Infinity") then Infinity neg
  else
    let '(ip, r1) := span isDigit u in
    let '(fp, r2) :=
      match r1 with
      | c :: r => if (c =? DOT)%N then span isDigit r else ([], r1)
      | [] => ([], r1)
      end in
    match ip ++ fp with
    | [] => NaN
    | ds => Decimal neg (digitsValue ds)
              (readExponent r2 - Z.of_nat (List.length fp))
    end.

Definition isNaN (x : JsNumber) : bool :=
  match x with NaN => true | _ => false end.

(** Whether [m * 10^e] is at most 2^-1075, half the least positive
    double: such a value is rounded to zero (the tie goes to zero, whose
    significand is even). *)
Definition roundsToZero (m : N) (e : Z) : bool :=
  if (m =? 0)%N then true
  else if (0 <=? e)%Z then false
  else (Z.of_N m * 2 ^ 1075 <=? 10 ^ (- e))%Z.

(** [x <= 0] *)
Definition lessOrEqualZero (x : JsNumber) : bool :=
  match x with
  | NaN => false
  | Infinity neg => neg
  | Decimal neg m e => neg || roundsToZero m e
  end.

(** [BigInt(s)] for a string of digits with an optional leading minus
    (the only strings it is given here); [BigInt('')] is [0n]. *)
Definition BigInt (s : jsstring) : Z :=
  match s with
  | c :: r => if (c =? MINUS)%N then (- Z.of_N (digitsValue r))%Z
              else Z.of_N (digitsValue s)
  | [] => 0%Z
  end.

Fixpoint digitsOfUint (u : Decimal.uint) : jsstring :=
  match u with
  | Decimal.Nil => []
  | Decimal.D0 r => 48%N :: digitsOfUint r
  | Decimal.D1 r => 49%N :: digitsOfUint r
  | Decimal.D2 r => 50%N :: digitsOfUint r
  | Decimal.D3 r => 51%N :: digitsOfUint r
  | Decimal.D4 r => 52%N :: digitsOfUint r
  | Decimal.D5 r => 53%N :: digitsOfUint r
  | Decimal.D6 r => 54%N :: digitsOfUint r
  | Decimal.D7 r => 55%N :: digitsOfUint r
  | Decimal.D8 r => 56%N :: digitsOfUint r
  | Decimal.D9 r => 57%N :: digitsOfUint r
  end.

(** [`${n}`] for a non-negative bigint. *)
Definition bigintToString (n : Z) : jsstring :=
  digitsOfUint (N.to_uint (Z.to_N n)).

(** [Math.round(Number(`${unit}.${right}`))] for a digit [unit] (or the
    empty string, read as 0) and digits [right].  With [k] the digit, the
    double nearest to the literal reaches [k + 1/2] exactly when the
    literal is at least [k + 1/2 - 2^-g], the midpoint between [k + 1/2]
    and the double below it; [Math.round] then gives [k + 1], otherwise
    [k]. *)
Definition halfGap (k : N) : N :=
  if (k =? 0)%N then 55
  else if (k =? 1)%N then 53
  else if (k <? 4)%N then 52
  else if (k <? 8)%N then 51
  else 50.

Definition roundNumber (unit right : jsstring) : N :=
  let k := digitsValue unit in
  let g := halfGap k in
  if (10 ^ N.of_nat (List.length right) * (2 ^ (g - 1) - 1)
        <=? digitsValue right * 2 ^ g)%N
  then (k + 1)%N else k.

(* ================================================================== *)
(** * Values thrown, completions and effects *)
(* ================================================================== *)

(** What a [catch] clause can receive: an instance of [Error] with its
    message (a string, as the type of [Error] has it), or any other value,
    of which the program only looks at its truthiness and at [String(v)].
    Values that [String] cannot convert are not represented. *)
Inductive JsValue : Type :=
| ErrorObject (message : jsstring)
| NonError (isTruthy : bool) (asString : jsstring).

Inductive Completion (A : Type) : Type :=
| Normal (a : A)
| Throw (v : JsValue).
Arguments Normal {A} a.
Arguments Throw {A} v.

(** One call object of a user operation. *)
Record Call : Type := mkCall {
  call_to : jsstring;
  call_value : Z;
  call_data : jsstring
}.

(** What the function does to the outside, in the order it does it. *)
Inductive Event : Type :=
| SendUserOperation (calls : list Call)
| WaitForUserOperationReceipt (hash : jsstring)
| ConsoleWarn (args : list JsValue)
| ConsoleError (args : list JsValue).

Definition Eff (A : Type) : Type :=
  list Event -> Completion A * list Event.

Definition ret {A} (a : A) : Eff A := fun t => (Normal a, t).

Definition throw {A} (v : JsValue) : Eff A := fun t => (Throw v, t).

Definition bind {A B} (m : Eff A) (f : A -> Eff B) : Eff B :=
  fun t =>
    match m t with
    | (Normal a, t') => f a t'
    | (Throw v, t') => (Throw v, t')
    end.

(** [try { body } catch (e) { handler e }] *)
Definition tryCatch {A} (body : Eff A) (handler : JsValue -> Eff A) : Eff A :=
  fun t =>
    match body t with
    | (Normal a, t') => (Normal a, t')
    | (Throw v, t') => handler v t'
    end.

(** A library call: no effect besides its completion. *)
Definition pure {A} (c : Completion A) : Eff A := fun t => (c, t).

Definition emit (e : Event) : Eff unit := fun t => (Normal tt, t ++ [e]).

Declare Scope eff_scope.
Delimit Scope eff_scope with eff.
Notation "x <- m ;; k" := (bind m (fun x => k))
  (at level 61, m at next level, right associativity) : eff_scope.
Notation "m ;; k" := (bind m (fun _ => k))
  (at level 61, right associativity) : eff_scope.
Open Scope eff_scope.

(** The calls of a trace that went to the kernel client. *)
Definition isNetworkCall (e : Event) : bool :=
  match e with
  | SendUserOperation _ | WaitForUserOperationReceipt _ => true
  | _ => false
  end.

Definition networkCalls (t : list Event) : list Event :=
  filter isNetworkCall t.

(* ================================================================== *)
(** * The viem functions the payment module calls *)
(* ================================================================== *)

(** The parts of viem that are left open: the EIP-55 checksum (a
    Keccak-256 digest) and the text of its error messages, which carries
    the version of the library. *)
Class Viem : Type := {
  checksumAddress : jsstring -> jsstring;
  InvalidDecimalNumberError : jsstring -> jsstring;
  InvalidAddressError : jsstring -> jsstring;
  IntegerOutOfRangeError : Z -> jsstring
}.

(** A string past its leading minus, if it has one. *)
Definition optionalMinus (value : jsstring) : jsstring :=
  match value with
  | c :: r => if (c =? MINUS)%N then r else value
  | [] => value
  end.

(** The test of [parseUnits] on its argument, a regular expression for:
    an optional minus, digits, an optional dot, digits, and nothing else
    (each run of digits may be empty). *)
Definition isDecimalNumber (value : jsstring) : bool :=
  let '(_, r1) := span isDigit (optionalMinus value) in
  let r2 :=
    match r1 with
    | c :: r => if (c =? DOT)%N then r else r1
    | [] => r1
    end in
  forallb isDigit r2.

(** [fraction.replace(re, '')] with [re] the trailing run of zeros. *)
Definition trimTrailingZeros (s : jsstring) : jsstring :=
  rev (dropWhile (N.eqb ZERO) (rev s)).

Section ViemFunctions.
Context {viem : Viem}.

(** [parseUnits(value, decimals)], after the source of viem 2: the test
    on the argument, the split at the dot, the trailing zeros trimmed,
    then one of three cases on the length of the fraction.  With no
    decimals the fraction only rounds the integer ([Number('.')] is
    [NaN], which rounds to nothing); a fraction longer than [decimals] is
    rounded at its last kept digit; a shorter one is padded. *)
Definition parseUnits (value : jsstring) (decimals : nat) : Completion Z :=
  if negb (isDecimalNumber value)
  then Throw (ErrorObject (InvalidDecimalNumberError value))
  else
    let parts := split DOT value in
    let integer0 := nth 0 parts [] in
    let fraction0 :=
      match nth_error parts 1 with Some f => f | None => lit "0" end in
    let negative := startsWith integer0 (lit "-") in
    let integer1 := if negative then skipn 1 integer0 else integer0 in
    let fraction1 := trimTrailingZeros fraction0 in
    let '(integer2, fraction2) :=
      if (decimals =? 0)%nat then
        ((if truthy fraction1 && (roundNumber [] fraction1 =? 1)%N
          then bigintToString (BigInt integer1 + 1)
          else integer1),
         [])
      else if (decimals <? List.length fraction1)%nat then
        let left := slice fraction1 0 (decimals - 1) in
        let unit := slice fraction1 (decimals - 1) decimals in
        let right := skipn decimals fraction1 in
        let rounded := roundNumber unit right in
        let fraction' :=
          if (9 <? rounded)%N
          then padStart0 (bigintToString (BigInt left + 1) ++ lit "0")
                         (List.length left + 1)
          else left ++ bigintToString (Z.of_N rounded) in
        let '(integer', fraction'') :=
          if (decimals <? List.length fraction')%nat
          then (bigintToString (BigInt integer1 + 1), skipn 1 fraction')
          else (integer1, fraction') in
        (integer', slice fraction'' 0 decimals)
      else (integer1, padEnd0 fraction1 decimals) in
    Normal
      (BigInt ((if negative then lit "-" else []) ++ integer2 ++ fraction2)).

(** [parseEther(ether)] is [parseUnits(ether, 18)]. *)
Definition parseEther (ether : jsstring) : Completion Z :=
  parseUnits ether 18.

Definition isHexDigit (c : N) : bool :=
  isDigit c
  || ((97 <=? c)%N && (c <=? 102)%N)
  || ((65 <=? c)%N && (c <=? 70)%N).

(** The address pattern of viem: [0x] and forty hexadecimal digits. *)
Definition addressRegex (a : jsstring) : bool :=
  startsWith a (lit "0x")
  && (List.length a =? 42)%nat
  && forallb isHexDigit (skipn 2 a).

(** [isAddress(a)], strict: an address with a capital in it must be in
    checksum form. *)
Definition isAddress (a : jsstring) : bool :=
  addressRegex a
  && (strictEquals (toLowerCase a) a || strictEquals (checksumAddress a) a).

Definition hexDigit (d : N) : N :=
  if (d <? 10)%N then (48 + d)%N else (87 + d)%N.

(** The last [width] hexadecimal digits of [v]: [v.toString(16)] padded
    at the start with zeros to [width], for [v] below [16^width]. *)
Fixpoint hexFixed (width : nat) (v : N) : jsstring :=
  match width with
  | O => []
  | S w => hexFixed w (v / 16) ++ [hexDigit (v mod 16)]
  end.

Definition MAX_UINT256 : Z := 2 ^ 256 - 1.

(** The selector of [transfer(address,uint256)]: the first four bytes of
    the Keccak-256 digest of that signature. *)
Definition transferSelector : jsstring := lit "a9059cbb".

(** [encodeFunctionData({ abi, functionName: 'transfer', args: [to, amount] })]
    for the one-function ABI written in the source: the selector, then
    the address and the amount as 32-byte words.  The arguments are
    checked in order. *)
Definition encodeFunctionData (to : jsstring) (amount : Z)
  : Completion jsstring :=
  if negb (isAddress to) then Throw (ErrorObject (InvalidAddressError to))
  else if (MAX_UINT256 <? amount)%Z || (amount <? 0)%Z
  then Throw (ErrorObject (IntegerOutOfRangeError amount))
  else Normal (lit "0x" ++ transferSelector
               ++ padStart0 (skipn 2 (toLowerCase to)) 64
               ++ hexFixed 64 (Z.to_N amount)).

End ViemFunctions.

(** Reading a word of hexadecimal digits back. *)
Definition hexDigitValue (c : N) : N :=
  if (c <? 58)%N then (c - 48)%N else (c - 87)%N.

Definition hexValue (s : jsstring) : N :=
  fold_left (fun acc c => (16 * acc + hexDigitValue c)%N) s 0%N.

(** The [uint256] argument of an encoded [transfer] call: the second
    32-byte word after the selector. *)
Definition transferAmountOf (data : jsstring) : Z :=
  Z.of_N (hexValue (slice data 74 138)).

(** The [address] argument: the last 20 bytes of the first word. *)
Definition transferRecipientOf (data : jsstring) : jsstring :=
  lit "0x" ++ slice data 34 74.

(** The amount written [ip.fp] in units of 10^-18: what "converted to the
    smallest unit at 18 decimal places" asks for when the fraction has at
    most 18 digits. *)
Definition scaleBy18 (ip fp : jsstring) : Z :=
  (Z.of_N (digitsValue ip) * 10 ^ 18
   + Z.of_N (digitsValue fp) * 10 ^ (18 - Z.of_nat (List.length fp)))%Z.

(* ================================================================== *)
(** * The payment module: data *)
(* ================================================================== *)

(** [PaymentParams.currency] *)
Inductive Currency : Type :=
| CELO | USDT | USDC | cUSD | cEUR | cREAL | cCOP | PSY | MOT | cCAD.

Definition currencyName (c : Currency) : jsstring :=
  match c with
  | CELO => lit "CELO" | USDT => lit "USDT" | USDC => lit "USDC"
  | cUSD => lit "cUSD" | cEUR => lit "cEUR" | cREAL => lit "cREAL"
  | cCOP => lit "cCOP" | PSY => lit "PSY" | MOT => lit "MOT"
  | cCAD => lit "cCAD"
  end.

Record PaymentParams : Type := mkPaymentParams {
  from : jsstring;
  to : jsstring;
  amount : jsstring;
  currency : Currency
}.

(** The optional fields are [None] when the object literal leaves them
    out. *)
Record PaymentResult : Type := mkPaymentResult {
  success : bool;
  transactionHash : option jsstring;
  error : option jsstring;
  explorerUrl : option jsstring
}.

(** What [waitForUserOperationReceipt] resolves to, as far as it is read
    ([receipt?.receipt?.transactionHash]). *)
Record TransactionReceipt : Type := mkTransactionReceipt {
  receipt_transactionHash : option jsstring
}.

Record UserOperationReceipt : Type := mkUserOperationReceipt {
  receipt : option TransactionReceipt
}.

(** The injected kernel client.  Each method is called at most once in
    one payment, so a function of its argument covers every behaviour it
    may show; a rejected promise is a [Throw].  A promise that never
    settles is not represented.  The [account] of the client is only
    logged and is left out. *)
Record KernelAccountClient : Type := mkKernelAccountClient {
  sendUserOperation : list Call -> Completion jsstring;
  waitForUserOperationReceipt :
    jsstring -> Completion (option UserOperationReceipt)
}.

(** What the module imports from lib/celo.ts: the token table and the
    explorer link are parameters of the development.  A token without an
    entry is [None]. *)
Class Celo : Type := {
  CELO_STABLE_TOKENS : Currency -> option jsstring;
  getCeloExplorerUrl : jsstring -> jsstring -> jsstring
}.

Definition callSendUserOperation (kernelClient : KernelAccountClient)
    (calls : list Call) : Eff jsstring :=
  fun t => (sendUserOperation kernelClient calls,
            t ++ [SendUserOperation calls]).

Definition callWaitForUserOperationReceipt (kernelClient : KernelAccountClient)
    (hash : jsstring) : Eff (option UserOperationReceipt) :=
  fun t => (waitForUserOperationReceipt kernelClient hash,
            t ++ [WaitForUserOperationReceipt hash]).

(** A string as a console argument or a thrown value. *)
Definition str (s : jsstring) : JsValue := NonError (truthy s) s.

(** [!v] *)
Definition falsy (v : JsValue) : bool :=
  match v with
  | ErrorObject _ => false
  | NonError t _ => negb t
  end.

(* ================================================================== *)
(** * The payment module: the texts it writes *)
(* ================================================================== *)

(** The string literals of [sendPaymentWithKernel], each under a name. *)
Definition hexPrefix : jsstring := lit "0x".

Definition txKind : jsstring := lit "tx".

Definition invalidAddressMessage : jsstring :=
  lit "Dirección de destino inválida".

Definition invalidAmountMessage : jsstring :=
  lit "Monto inválido. Debe ser un número mayor a 0".

Definition notConfiguredMessage (currencyText : jsstring) : jsstring :=
  lit "Dirección del contrato para " ++ currencyText
  ++ lit " no configurada. Por favor, actualiza lib/celo.ts con la dirección correcta.".

Definition missingHashMessage : jsstring :=
  lit "No se encontró el hash de transacción en el recibo".

Definition responseProcessingMessage : jsstring :=
  lit "La transacción fue enviada pero hubo un error al procesar la respuesta. Por favor verifica en el explorador de blockchain.".

Definition unknownErrorMessage : jsstring := lit "Error desconocido".

Definition fundingGuidance (errorMessage : jsstring) : jsstring :=
  errorMessage
  ++ lit ". Asegúrate de tener fondos suficientes y que el paymaster esté financiado.".

Definition sponsorshipGuidance : jsstring :=
  lit "⚠️ El paymaster de Pimlico tiene un límite mensual." ++ [LF; LF]
  ++ lit "Por favor verifica tu plan en el dashboard de Pimlico." ++ [LF; LF]
  ++ lit "Opciones:" ++ [LF]
  ++ lit "1. Verificar fondos del paymaster en Pimlico dashboard" ++ [LF]
  ++ lit "2. Actualizar plan si es necesario" ++ [LF]
  ++ lit "3. Usar Alfajores (testnet) para desarrollo".

(** The substrings looked for in error messages. *)
Definition INVALID_CODEPOINT : jsstring := lit "invalid codepoint".
Definition MISSING_CONTINUATION_BYTE : jsstring := lit "missing continuation byte".
Definition STRINGS_5_7_0 : jsstring := lit "strings/5.7.0".
Definition FUND : jsstring := lit "fund".
Definition BALANCE : jsstring := lit "balance".
Definition INSUFFICIENT : jsstring := lit "insufficient".
Definition MONTHLY : jsstring := lit "monthly".
Definition SPONSORSHIP_LIMIT : jsstring := lit "sponsorship limit".
Definition BILLING_PLAN : jsstring := lit "billing plan".
Definition UPGRADE_YOUR_BILLING : jsstring := lit "upgrade your billing".

(** The console lines. *)
Definition receiptWaitWarning : Event :=
  ConsoleWarn
    [str (lit "⚠️ Non-fatal encoding error during receipt wait (tx may have succeeded)")].

Definition topLevelWarning : Event :=
  ConsoleWarn [str (lit "⚠️ Non-fatal encoding error caught at top level")].

Definition paymentErrorLine (error : JsValue) : Event :=
  ConsoleError [str (lit "❌ Error en el pago:"); error].

Definition addressMismatchLines (expected got : jsstring) : list Event :=
  [ConsoleError [str (lit "❌ BUG: to address mismatch!")];
   ConsoleError [str (lit "   Expected:"); str expected];
   ConsoleError [str (lit "   Got:"); str got]].

Definition valueNotZeroLines (got : jsstring) : list Event :=
  [ConsoleError [str (lit "❌ BUG: value should be 0 for ERC20 transfer!")];
   ConsoleError [str (lit "   Got:"); str got]].

Definition dataInvalidLines (got : jsstring) : list Event :=
  [ConsoleError [str (lit "❌ BUG: data is empty or invalid for ERC20 transfer!")];
   ConsoleError [str (lit "   Got:"); str got]].

(* ================================================================== *)
(** * The payment module: [isEncodingError] and [sendPaymentWithKernel] *)
(* ================================================================== *)

(** [isEncodingError(error)] *)
Definition isEncodingError (error : JsValue) : bool :=
  if falsy error then false
  else
    let errorStr :=
      match error with
      | ErrorObject message => message
      | NonError _ s => s
      end in
    includes errorStr INVALID_CODEPOINT
    || includes errorStr MISSING_CONTINUATION_BYTE
    || includes errorStr STRINGS_5_7_0.

(** The inner [try] either leaves the function with a result or goes on
    with the hash read from the receipt. *)
Inductive Step : Type :=
| Return (result : PaymentResult)
| Continue (hash : option jsstring).

Definition hashOfReceipt (r : option UserOperationReceipt) : option jsstring :=
  match r with
  | Some u =>
    match receipt u with
    | Some tr => receipt_transactionHash tr
    | None => None
    end
  | None => None
  end.

(** [!x] for [x: string | undefined] *)
Definition notSet (x : option jsstring) : bool :=
  match x with
  | Some s => negb (truthy s)
  | None => true
  end.

Definition when (b : bool) (m : Eff unit) : Eff unit :=
  if b then m else ret tt.

(** Several console lines in a row. *)
Definition emitAll (es : list Event) : Eff unit :=
  fun t => (Normal tt, t ++ es).

Section Payments.
Context {viem : Viem} {celo : Celo}.

(** The wait for the receipt and the result built from it: the block
    written once in the CELO branch and once more, word for word, in the
    token branch. *)
Definition awaitReceipt (kernelClient : KernelAccountClient)
    (userOpHash : jsstring) : Eff PaymentResult :=
  step <-
    tryCatch
      (receipt <- callWaitForUserOperationReceipt kernelClient userOpHash ;;
       ret (Continue (hashOfReceipt receipt)))
      (fun receiptError =>
         if isEncodingError receiptError then
           emit receiptWaitWarning ;;
           ret (Return
             {| success := true;
                transactionHash := Some userOpHash;
                error := None;
                explorerUrl := Some (getCeloExplorerUrl userOpHash txKind) |})
         else throw receiptError) ;;
  match step with
  | Return result => ret result
  | Continue hash =>
    if notSet hash
    then throw (ErrorObject missingHashMessage)
    else ret {| success := true;
                transactionHash := hash;
                error := None;
                explorerUrl :=
                  option_map (fun h => getCeloExplorerUrl h txKind) hash |}
  end.

(** The branch [params.currency === 'CELO']. *)
Definition nativeTransfer (kernelClient : KernelAccountClient)
    (params : PaymentParams) : Eff PaymentResult :=
  amountInWei <- pure (parseEther (amount params)) ;;
  userOpHash <-
    callSendUserOperation kernelClient
      [ {| call_to := to params;
           call_value := amountInWei;
           call_data := hexPrefix |} ] ;;
  awaitReceipt kernelClient userOpHash.

(** The [else] branch: an ERC20 transfer. *)
Definition tokenTransfer (kernelClient : KernelAccountClient)
    (params : PaymentParams) : Eff PaymentResult :=
  let notConfigured :=
    {| success := false;
       transactionHash := None;
       error := Some (notConfiguredMessage (currencyName (currency params)));
       explorerUrl := None |} in
  match CELO_STABLE_TOKENS (currency params) with
  | None => ret notConfigured
  | Some tokenAddress =>
    if negb (truthy tokenAddress) then ret notConfigured
    else
      amountInWei <- pure (parseUnits (amount params) 18) ;;
      data <- pure (encodeFunctionData (to params) amountInWei) ;;
      let callObject :=
        {| call_to := tokenAddress;
           call_value := 0%Z;
           call_data := data |} in
      when (negb (strictEquals (call_to callObject) tokenAddress))
        (emitAll (addressMismatchLines tokenAddress (call_to callObject))) ;;
      when (negb (call_value callObject =? 0)%Z)
        (emitAll (valueNotZeroLines
                    (bigintToString (call_value callObject)))) ;;
      when (negb (truthy (call_data callObject))
            || strictEquals (call_data callObject) hexPrefix
            || (List.length (call_data callObject) <? 10)%nat)
        (emitAll (dataInvalidLines (call_data callObject))) ;;
      userOpHash <- callSendUserOperation kernelClient [callObject] ;;
      awaitReceipt kernelClient userOpHash
  end.

(** The outer [catch (error) { ... }]. *)
Definition onError (error : JsValue) : Eff PaymentResult :=
  if isEncodingError error then
    emit topLevelWarning ;;
    ret {| success := false;
           transactionHash := None;
           error := Some responseProcessingMessage;
           explorerUrl := None |}
  else
    emit (paymentErrorLine error) ;;
    let errorMessage :=
      match error with
      | ErrorObject message => message
      | NonError _ _ => unknownErrorMessage
      end in
    if includes (toLowerCase errorMessage) FUND
       || includes (toLowerCase errorMessage) BALANCE
       || includes (toLowerCase errorMessage) INSUFFICIENT
    then
      ret {| success := false;
             transactionHash := None;
             error := Some (fundingGuidance errorMessage);
             explorerUrl := None |}
    else if includes (toLowerCase errorMessage) MONTHLY
            || includes (toLowerCase errorMessage) SPONSORSHIP_LIMIT
            || includes (toLowerCase errorMessage) BILLING_PLAN
            || includes (toLowerCase errorMessage) UPGRADE_YOUR_BILLING
    then
      ret {| success := false;
             transactionHash := None;
             error := Some sponsorshipGuidance;
             explorerUrl := None |}
    else
      ret {| success := false;
             transactionHash := None;
             error := Some errorMessage;
             explorerUrl := None |}.

(** The two checks at the head of the function. *)
Definition addressRejected (recipient : jsstring) : bool :=
  negb (truthy recipient)
  || negb (startsWith recipient hexPrefix)
  || negb (List.length recipient =? 42)%nat.

Definition amountRejected (amountText : jsstring) : bool :=
  let amount := parseFloat amountText in
  isNaN amount || lessOrEqualZero amount.

(** [sendPaymentWithKernel(kernelClient, params)] *)
Definition sendPaymentWithKernel (kernelClient : KernelAccountClient)
    (params : PaymentParams) : Eff PaymentResult :=
  tryCatch
    (if addressRejected (to params) then
       ret {| success := false;
              transactionHash := None;
              error := Some invalidAddressMessage;
              explorerUrl := None |}
     else if amountRejected (amount params) then
       ret {| success := false;
              transactionHash := None;
              error := Some invalidAmountMessage;
              explorerUrl := None |}
     else
       match currency params with
       | CELO => nativeTransfer kernelClient params
       | _ => tokenTransfer kernelClient params
       end)
    onError.

(** One payment, from an empty trace. *)
Definition run (kernelClient : KernelAccountClient) (params : PaymentParams)
  : Completion PaymentResult * list Event :=
  sendPaymentWithKernel kernelClient params [].

(** The rest of a payment once its call list is built: the submission,
    the wait for the receipt and the outer [catch]. *)
Definition submit (kernelClient : KernelAccountClient) (calls : list Call)
  : Completion PaymentResult * list Event :=
  tryCatch
    (userOpHash <- callSendUserOperation kernelClient calls ;;
     awaitReceipt kernelClient userOpHash)
    onError [].

(** The call object the function builds for a payment. *)
Inductive Envelope (params : PaymentParams) : Call -> Prop :=
| NativeEnvelope (amountInWei : Z) :
    currency params = CELO ->
    parseEther (amount params) = Normal amountInWei ->
    Envelope params
      {| call_to := to params;
         call_value := amountInWei;
         call_data := hexPrefix |}
| TokenEnvelope (tokenAddress : jsstring) (amountInWei : Z) (data : jsstring) :
    currency params <> CELO ->
    CELO_STABLE_TOKENS (currency params) = Some tokenAddress ->
    truthy tokenAddress = true ->
    parseUnits (amount params) 18 = Normal amountInWei ->
    encodeFunctionData (to params) amountInWei = Normal data ->
    Envelope params
      {| call_to := tokenAddress;
         call_value := 0%Z;
         call_data := data |}.

(** The result of a settled payment with hash [h]; the downgrade of the
    encoding error returns the same record with the operation identifier
    in the place of [h]. *)
Definition successResult (h : jsstring) : PaymentResult :=
  {| success := true;
     transactionHash := Some h;
     error := None;
     explorerUrl := Some (getCeloExplorerUrl h txKind) |}.

Definition failureResult (message : jsstring) : PaymentResult :=
  {| success := false;
     transactionHash := None;
     error := Some message;
     explorerUrl := None |}.

(** The message the outer [catch] returns for an error that is not the
    encoding error. *)
Definition errorMessageOf (error : JsValue) : jsstring :=
  match error with
  | ErrorObject message => message
  | NonError _ _ => unknownErrorMessage
  end.

Definition mentionsFunding (errorMessage : jsstring) : bool :=
  includes (toLowerCase errorMessage) FUND
  || includes (toLowerCase errorMessage) BALANCE
  || includes (toLowerCase errorMessage) INSUFFICIENT.

Definition mentionsSponsorship (errorMessage : jsstring) : bool :=
  includes (toLowerCase errorMessage) MONTHLY
  || includes (toLowerCase errorMessage) SPONSORSHIP_LIMIT
  || includes (toLowerCase errorMessage) BILLING_PLAN
  || includes (toLowerCase errorMessage) UPGRADE_YOUR_BILLING.

(** The message the outer [catch] answers with. *)
Definition guidanceFor (error : JsValue) : jsstring :=
  if mentionsFunding (errorMessageOf error)
  then fundingGuidance (errorMessageOf error)
  else if mentionsSponsorship (errorMessageOf error)
  then sponsorshipGuidance
  else errorMessageOf error.

End Payments.

(* ================================================================== *)
(** * lib/wallet-utils.ts: the EOA of a wallet list *)
(* ================================================================== *)

(** The functions of this part are pure but for their console lines,
    which are left out. *)

Inductive WalletClientType : Type := waap | external.

Definition walletClientType_eqb (a b : WalletClientType) : bool :=
  match a, b with
  | waap, waap | external, external => true
  | _, _ => false
  end.

(** A value of the template type written [0x${string}]: the text after
    the prefix is free. *)
Record HexText : Type := mkHexText { afterPrefix : jsstring }.

Definition hexText (h : HexText) : jsstring := lit "0x" ++ afterPrefix h.

Record WaaPWallet : Type := mkWaaPWallet {
  address : HexText;
  walletClientType : WalletClientType;
  chainId : jsstring;
  connected : bool
}.

(** The test of the two searches:
    [wallet => wallet.walletClientType === t]. *)
Definition isOfType (t : WalletClientType) (wallet : WaaPWallet) : bool :=
  walletClientType_eqb (walletClientType wallet) t.

(** [w?.address] *)
Definition addressOf (w : option WaaPWallet) : option jsstring :=
  option_map (fun w => hexText (address w)) w.

(** [getEOAAddress(wallets)]; [null] is [None]. *)
Definition getEOAAddress (wallets : list WaaPWallet) : option jsstring :=
  let externalWallet :=
    find (fun wallet => walletClientType_eqb (walletClientType wallet) external)
         wallets in
  if negb (notSet (addressOf externalWallet)) then addressOf externalWallet
  else
    let waapWallet :=
      find (fun wallet => walletClientType_eqb (walletClientType wallet) waap)
           wallets in
    if negb (notSet (addressOf waapWallet)) then addressOf waapWallet
    else None.

(** [getEOAWallet(wallets)] *)
Definition getEOAWallet (wallets : list WaaPWallet) : option WaaPWallet :=
  let externalWallet :=
    find (fun wallet => walletClientType_eqb (walletClientType wallet) external)
         wallets in
  match externalWallet with
  | Some w => Some w
  | None =>
    let waapWallet :=
      find (fun wallet => walletClientType_eqb (walletClientType wallet) waap)
           wallets in
    match waapWallet with
    | Some w => Some w
    | None => None
    end
  end.

(* ================================================================== *)
(** * lib/wallet-utils.ts: the other selections *)
(* ================================================================== *)

(** [identifySmartWallet(wallets)] *)
Definition identifySmartWallet (wallets : list WaaPWallet)
  : option WaaPWallet :=
  let waapWallet :=
    find (fun wallet => walletClientType_eqb (walletClientType wallet) waap)
         wallets in
  match waapWallet with
  | Some w => Some w
  | None => None
  end.

(** [identifyEmbeddedWallet(wallets)] *)
Definition identifyEmbeddedWallet (wallets : list WaaPWallet)
  : option WaaPWallet :=
  let waapWallet :=
    find (fun wallet => walletClientType_eqb (walletClientType wallet) waap)
         wallets in
  match waapWallet with
  | Some w => Some w
  | None =>
    let externalWallet :=
      find (fun wallet =>
              walletClientType_eqb (walletClientType wallet) external)
           wallets in
    match externalWallet with
    | Some w => Some w
    | None => None
    end
  end.

(** [getPrimaryWalletAddress(wallets)] *)
Definition getPrimaryWalletAddress (wallets : list WaaPWallet)
  : option jsstring :=
  let waapWallet := identifyEmbeddedWallet wallets in
  if negb (notSet (addressOf waapWallet)) then addressOf waapWallet
  else None.

(** [getPrimaryWallet(wallets)] *)
Definition getPrimaryWallet (wallets : list WaaPWallet) : option WaaPWallet :=
  let waapWallet := identifyEmbeddedWallet wallets in
  match waapWallet with
  | Some w => Some w
  | None => None
  end.

(** The type [WalletType]: 'smart-wallet' | 'embedded' | 'external' |
    'waap'. *)
Inductive WalletType : Type :=
| WalletType_smart_wallet
| WalletType_embedded
| WalletType_external
| WalletType_waap.

(** [getWalletType(wallet, allWallets)] *)
Definition getWalletType (wallet : option WaaPWallet)
    (allWallets : list WaaPWallet) : WalletType :=
  match wallet with
  | None => WalletType_external
  | Some w =>
    if walletClientType_eqb (walletClientType w) waap then WalletType_waap
    else WalletType_external
  end.

(** What [verifySmartWallet] returns. *)
Record SmartWalletCheck : Type := mkSmartWalletCheck {
  exists_ : bool;
  smartWallet : option WaaPWallet;
  embeddedWallet : option WaaPWallet;
  message : jsstring;
  isCreating : bool
}.

Definition walletFoundMessage : jsstring :=
  lit "WaaP wallet found - smart wallet will be created by ZeroDev".

Definition walletMissingMessage : jsstring :=
  lit "No WaaP wallet found. Please log in with WaaP.".

(** [verifySmartWallet(wallets)] *)
Definition verifySmartWallet (wallets : list WaaPWallet) : SmartWalletCheck :=
  let waapWallet := identifyEmbeddedWallet wallets in
  match waapWallet with
  | Some w =>
    {| exists_ := true;
       smartWallet := Some w;
       embeddedWallet := Some w;
       message := walletFoundMessage;
       isCreating := false |}
  | None =>
    {| exists_ := false;
       smartWallet := None;
       embeddedWallet := None;
       message := walletMissingMessage;
       isCreating := false |}
  end.

(** Whether a list holds a wallet of a type. *)
Definition hasType (t : WalletClientType) (wallets : list WaaPWallet) : Prop :=
  exists w, In w wallets /\ walletClientType w = t.

(* ================================================================== *)
(** * The payment module: the payments that go through the wallet *)
(* ================================================================== *)

(** The argument of [walletClient.sendTransaction]; a field the object
    literal leaves out, or that is [undefined], is [None]. *)
Record TransactionRequest : Type := mkTransactionRequest {
  tx_to : option jsstring;
  tx_value : option Z;
  tx_data : option jsstring
}.

(** [window.waap], the EIP-1193 provider.  Of what viem and the provider
    do together with a transaction only the outcome is kept: a function
    of the account of the client and of the request. *)
Record WaapProvider : Type := mkWaapProvider {
  provider_sendTransaction :
    jsstring -> TransactionRequest -> Completion jsstring
}.

(** The browser: [None] when [window] is undefined or [window.waap] is
    not set. *)
Class Browser : Type := {
  window_waap : option WaapProvider
}.

(** The client [createWalletClient] returns. *)
Record WalletClient : Type := mkWalletClient {
  client_account : jsstring;
  client_transport : WaapProvider
}.

Definition createWalletClient (account : jsstring) (provider : WaapProvider)
  : WalletClient :=
  {| client_account := account; client_transport := provider |}.

Definition providerMissingMessage : jsstring :=
  lit "WaaP provider not available. Please ensure WaaP is initialized.".

Definition paymentFailedMessage : jsstring := lit "Payment failed".

(** What these payments do to the outside. *)
Inductive WalletEvent : Type :=
| SendTransaction (account : jsstring) (request : TransactionRequest)
| WalletConsoleError (args : list JsValue).

Definition isTransaction (e : WalletEvent) : bool :=
  match e with
  | SendTransaction _ _ => true
  | WalletConsoleError _ => false
  end.

(** The same monad as [Eff], over these events. *)
Definition Act (A : Type) : Type :=
  list WalletEvent -> Completion A * list WalletEvent.

Definition actRet {A} (a : A) : Act A := fun t => (Normal a, t).

Definition actBind {A B} (m : Act A) (f : A -> Act B) : Act B :=
  fun t =>
    match m t with
    | (Normal a, t') => f a t'
    | (Throw v, t') => (Throw v, t')
    end.

Definition actTry {A} (body : Act A) (handler : JsValue -> Act A) : Act A :=
  fun t =>
    match body t with
    | (Normal a, t') => (Normal a, t')
    | (Throw v, t') => handler v t'
    end.

Definition actPure {A} (c : Completion A) : Act A := fun t => (c, t).

Definition actEmit (e : WalletEvent) : Act unit :=
  fun t => (Normal tt, t ++ [e]).

Notation "x <~ m ;; k" := (actBind m (fun x => k))
  (at level 61, m at next level, right associativity) : eff_scope.

Definition callSendTransaction (walletClient : WalletClient)
    (request : TransactionRequest) : Act jsstring :=
  fun t =>
    (provider_sendTransaction (client_transport walletClient)
       (client_account walletClient) request,
     t ++ [SendTransaction (client_account walletClient) request]).

Definition paymentErrorLabel : jsstring := lit "❌ Payment error:".

Section WalletPayments.
Context {viem : Viem} {celo : Celo} {browser : Browser}.

(** [createPrivyWalletClient(wallet, allWallets, allowEOA)]; the optional
    [allWallets] is [None] when the caller leaves it out. *)
Definition createPrivyWalletClient (wallet : WaaPWallet)
    (allWallets : option (list WaaPWallet)) (allowEOA : bool)
  : Completion WalletClient :=
  let targetWallet :=
    match allWallets with
    | Some ws =>
      if (0 <? List.length ws)%nat then
        match getPrimaryWallet ws with
        | Some primaryWallet => primaryWallet
        | None => wallet
        end
      else wallet
    | None => wallet
    end in
  match window_waap with
  | None => Throw (ErrorObject providerMissingMessage)
  | Some waapProvider =>
    Normal (createWalletClient (hexText (address targetWallet)) waapProvider)
  end.

(** [sendCELOPayment(wallet, params, allWallets)] *)
Definition sendCELOPayment (wallet : WaaPWallet) (params : PaymentParams)
    (allWallets : option (list WaaPWallet)) : Act PaymentResult :=
  actTry
    (walletClient <~ actPure (createPrivyWalletClient wallet allWallets true) ;;
     amountInWei <~ actPure (parseUnits (amount params) 18) ;;
     hash <~ callSendTransaction walletClient
               {| tx_to := Some (to params);
                  tx_value := Some amountInWei;
                  tx_data := None |} ;;
     actRet {| success := true;
               transactionHash := Some hash;
               error := None;
               explorerUrl := Some (getCeloExplorerUrl hash txKind) |})
    (fun error =>
       _ <~ actEmit (WalletConsoleError [str paymentErrorLabel; error]) ;;
       actRet {| success := false;
                 transactionHash := None;
                 error := Some match error with
                               | ErrorObject message => message
                               | NonError _ _ => paymentFailedMessage
                               end;
                 explorerUrl := None |}).

(** [sendStablecoinPayment(wallet, params)] *)
Definition sendStablecoinPayment (wallet : WaaPWallet)
    (params : PaymentParams) : Act PaymentResult :=
  actTry
    (walletClient <~ actPure (createPrivyWalletClient wallet None false) ;;
     let tokenAddress :=
       match currency params with
       | cUSD => CELO_STABLE_TOKENS cUSD
       | _ => CELO_STABLE_TOKENS cEUR
       end in
     amountInWei <~ actPure (parseUnits (amount params) 18) ;;
     data <~ actPure (encodeFunctionData (to params) amountInWei) ;;
     hash <~ callSendTransaction walletClient
               {| tx_to := tokenAddress;
                  tx_value := None;
                  tx_data := Some data |} ;;
     actRet {| success := true;
               transactionHash := Some hash;
               error := None;
               explorerUrl := Some (getCeloExplorerUrl hash txKind) |})
    (fun error =>
       actRet {| success := false;
                 transactionHash := None;
                 error := Some match error with
                               | ErrorObject message => message
                               | NonError _ _ => paymentFailedMessage
                               end;
                 explorerUrl := None |}).

End WalletPayments.

(** The text a direct payment returns for what its [catch] received. *)
Definition directMessage (error : JsValue) : jsstring :=
  match error with
  | ErrorObject message => message
  | NonError _ _ => paymentFailedMessage
  end.

(** The wallet whose address becomes the account of the client. *)
Definition targetWalletOf (wallet : WaaPWallet)
    (allWallets : option (list WaaPWallet)) : WaaPWallet :=
  match allWallets with
  | Some ws =>
    match getPrimaryWallet ws with
    | Some primaryWallet => primaryWallet
    | None => wallet
    end
  | None => wallet
  end.

(** The token a stablecoin payment is sent to. *)
Definition stablecoinOf (c : Currency) : Currency :=
  match c with
  | cUSD => cUSD
  | _ => cEUR
  end.

(** A string with no minus sign in it. *)
Definition noMinus (s : jsstring) : bool :=
  forallb (fun c => negb (c =? MINUS)%N) s.

(* ================================================================== *)
(** * Concrete collaborators, for the runs evaluated below *)
(* ================================================================== *)

Definition demoViem : Viem := {|
  checksumAddress := toLowerCase;
  InvalidDecimalNumberError := fun value =>
    lit "Number " ++ [QUOTE] ++ value ++ [QUOTE]
    ++ lit " is not a valid decimal number.";
  InvalidAddressError := fun a =>
    lit "Address " ++ [QUOTE] ++ a ++ [QUOTE] ++ lit " is invalid.";
  IntegerOutOfRangeError := fun n =>
    lit "Number is not in safe 256-bit unsigned integer range"
|}.

Definition cUSD_address : jsstring :=
  lit "0x765de816845861e75a25fca122bb6898b8b1282a".

Definition demoCelo : Celo := {|
  CELO_STABLE_TOKENS := fun c =>
    match c with
    | cUSD => Some cUSD_address
    | _ => None
    end;
  getCeloExplorerUrl := fun hash kind =>
    lit "https://celoscan.io/" ++ kind ++ lit "/" ++ hash
|}.

Definition demoRecipient : jsstring :=
  lit "0x1234567890abcdef1234567890abcdef12345678".

Definition demoUserOpHash : jsstring :=
  lit "0x0c27a87f4beb711972fda77594b82aa7579bf5a010331e76fb606172c1344252".

Definition demoTxHash : jsstring :=
  lit "0x5e1d3a76fbf824220eafc8c79ad578ad2b67d01b0c2425eb1f1347e8f50882ab".

(** A client that accepts every operation under [demoUserOpHash] and
    whose wait ends as given. *)
Definition demoClient (waitResult : Completion (option UserOperationReceipt))
  : KernelAccountClient :=
  {| sendUserOperation := fun _ => Normal demoUserOpHash;
     waitForUserOperationReceipt := fun _ => waitResult |}.

Definition settledReceipt (hash : jsstring) : option UserOperationReceipt :=
  Some {| receipt := Some {| receipt_transactionHash := Some hash |} |}.

Definition demoParams (recipient amountText : jsstring) (c : Currency)
  : PaymentParams :=
  {| from := lit "0x00000000000000000000000000000000000000aa";
     to := recipient;
     amount := amountText;
     currency := c |}.

(** A recipient with the prefix and the length of an address and no
    hexadecimal digit in it. *)
Definition nonHexRecipient : jsstring :=
  lit "0xzzzzzzzzzzzzzzzzzzzzzzzzzzzzzzzzzzzzzzzz".

(** A sponsorship refusal that also speaks of funds. *)
Definition quotaAndFundsMessage : jsstring :=
  lit "Sponsorship denied: upgrade your billing plan or fund the paymaster".

Definition INSUFFICIENT_FUNDS : jsstring := lit "insufficient funds".

(** A result carries a caveat when it has a text for the caller; [error]
    is the one field of [PaymentResult] left for it once [success],
    [transactionHash] and [explorerUrl] are as the success result has
    them. *)
Definition carriesCaveat (r : PaymentResult) : Prop :=
  exists text, error r = Some text.

(** The call object of a CELO payment of "1.0" to [demoRecipient]. *)
Definition demoNativeCall : Call :=
  {| call_to := demoRecipient;
     call_value := 1000000000000000000%Z;
     call_data := hexPrefix |}.

(** The call object of a cUSD payment of "10.5" to [demoRecipient]. *)
Definition demoTokenData : jsstring :=
  lit "0xa9059cbb"
  ++ lit "0000000000000000000000001234567890abcdef1234567890abcdef12345678"
  ++ lit "00000000000000000000000000000000000000000000000091b77e5e5d9a0000".

Definition demoTokenCall : Call :=
  {| call_to := cUSD_address;
     call_value := 0%Z;
     call_data := demoTokenData |}.

(** Wallet lists for the runs of the EOA functions. *)
Definition demoWaapWallet : WaaPWallet :=
  {| address := {| afterPrefix := lit "00000000000000000000000000000000000000aa" |};
     walletClientType := waap;
     chainId := lit "42220";
     connected := true |}.

Definition demoExternalWallet : WaaPWallet :=
  {| address := {| afterPrefix := lit "00000000000000000000000000000000000000bb" |};
     walletClientType := external;
     chainId := lit "42220";
     connected := true |}.

(** The message of the error reported against the WaaP SDK. *)
Definition codepointMessage : jsstring :=
  lit "invalid codepoint at offset 2; unexpected continuation byte (argument=bytes, code=INVALID_ARGUMENT, version=strings/5.7.0)".

(** The clients and parameters of the runs. *)
Definition codepointClient : KernelAccountClient :=
  demoClient (Throw (ErrorObject codepointMessage)).

Definition continuationClient : KernelAccountClient :=
  demoClient (Throw (ErrorObject (lit "missing continuation byte"))).

Definition settledClient : KernelAccountClient :=
  demoClient (Normal (settledReceipt demoTxHash)).

Definition sameHashClient : KernelAccountClient :=
  demoClient (Normal (settledReceipt demoUserOpHash)).

Definition emptyReceiptClient : KernelAccountClient :=
  demoClient (Normal (Some {| receipt := None |})).

Definition fundsMessage : jsstring :=
  lit "AA21 didn't pay prefund: insufficient funds for transfer".

Definition fundsClient : KernelAccountClient :=
  demoClient (Throw (ErrorObject fundsMessage)).

Definition quotaAndFundsClient : KernelAccountClient :=
  demoClient (Throw (ErrorObject quotaAndFundsMessage)).

Definition nativeParams : PaymentParams :=
  demoParams demoRecipient (lit "1.0") CELO.

Definition tokenParams : PaymentParams :=
  demoParams demoRecipient (lit "10.5") cUSD.

Definition shortRecipientParams : PaymentParams :=
  demoParams (lit "0x1234") (lit "1.0") CELO.

Definition nonHexParams : PaymentParams :=
  demoParams nonHexRecipient (lit "1") CELO.

Definition textAmountParams : PaymentParams :=
  demoParams demoRecipient (lit "abc") CELO.

Definition trailingTextParams : PaymentParams :=
  demoParams demoRecipient (lit "1abc") CELO.

Definition textAmountShortRecipientParams : PaymentParams :=
  demoParams (lit "0x1234") (lit "abc") CELO.

Definition codepointAmountParams : PaymentParams :=
  demoParams demoRecipient (lit "1 invalid codepoint") CELO.

(** More clients, parameters and browsers for the runs. *)
Definition submissionRejectedClient : KernelAccountClient :=
  {| sendUserOperation := fun _ => Throw (ErrorObject codepointMessage);
     waitForUserOperationReceipt := fun _ => Normal None |}.

Definition thrownTextClient : KernelAccountClient :=
  demoClient (Throw (NonError true (lit "insufficient funds"))).

Definition timeoutMessage : jsstring :=
  lit "Timed out while waiting for the user operation".

Definition timeoutClient : KernelAccountClient :=
  demoClient (Throw (ErrorObject timeoutMessage)).

Definition usdtParams : PaymentParams :=
  demoParams demoRecipient (lit "10.5") USDT.

Definition nonHexTokenParams : PaymentParams :=
  demoParams nonHexRecipient (lit "1") cUSD.

Definition otherSenderParams : PaymentParams :=
  {| from := lit "0x00000000000000000000000000000000000000cc";
     to := demoRecipient;
     amount := lit "1.0";
     currency := CELO |}.

Definition exponentParams : PaymentParams :=
  demoParams demoRecipient (lit "1e3") CELO.

Definition negativeParams : PaymentParams :=
  demoParams demoRecipient (lit "-1.5") CELO.

Definition cEUR_address : jsstring :=
  lit "0xd8763cba276a3738e6de85b4b3bf5fded6d6ca73".

Definition twoTokenCelo : Celo := {|
  CELO_STABLE_TOKENS := fun c =>
    match c with
    | cUSD => Some cUSD_address
    | cEUR => Some cEUR_address
    | _ => None
    end;
  getCeloExplorerUrl := fun hash kind =>
    lit "https://celoscan.io/" ++ kind ++ lit "/" ++ hash
|}.

Definition acceptingProvider : WaapProvider :=
  {| provider_sendTransaction := fun _ _ => Normal demoTxHash |}.

Definition rejectingProvider : WaapProvider :=
  {| provider_sendTransaction := fun _ _ => Throw (ErrorObject codepointMessage) |}.

Definition acceptingBrowser : Browser := {| window_waap := Some acceptingProvider |}.

Definition rejectingBrowser : Browser := {| window_waap := Some rejectingProvider |}.

Definition noBrowser : Browser := {| window_waap := None |}.

Definition demoNativeRequest : TransactionRequest :=
  {| tx_to := Some demoRecipient;
     tx_value := Some 1000000000000000000%Z;
     tx_data := None |}.

Definition nativeAmountAsTokenParams : PaymentParams :=
  demoParams demoRecipient (lit "1.0") cUSD.

Definition demoEuroRequest : TransactionRequest :=
  {| tx_to := Some cEUR_address;
     tx_value := None;
     tx_data := Some demoTokenData |}.

Definition demoWaapAccount : jsstring :=
  lit "0x00000000000000000000000000000000000000aa".

Definition demoExternalAccount : jsstring :=
  lit "0x00000000000000000000000000000000000000bb".

(* ================================================================== *)
(** * Properties of the string functions *)
(* ================================================================== *)

Section StringFacts.

Lemma strictEquals_refl (s : jsstring) : strictEquals s s = true.
Proof.
  induction s as [|c s IH]; simpl; [reflexivity|].
  now rewrite N.eqb_refl, IH.
Qed.

Lemma strictEquals_eq (s t : jsstring) : strictEquals s t = true <-> s = t.
Proof.
  split; [|intros ->; apply strictEquals_refl].
  revert t; induction s as [|c s IH]; intros [|d t]; simpl;
    try discriminate; [reflexivity|].
  intros H; apply andb_true_iff in H as [Hc Hs].
  apply N.eqb_eq in Hc; subst d. f_equal. now apply IH.
Qed.

Lemma startsWith_prefix (s p : jsstring) :
  startsWith s p = true <-> exists b, s = p ++ b.
Proof.
  revert s; induction p as [|d p IH]; intros s; simpl.
  - split; [intros _; now exists s | reflexivity].
  - destruct s as [|c s].
    + split; [discriminate | intros [b Hb]; discriminate].
    + rewrite andb_true_iff, N.eqb_eq, IH. split.
      * intros [-> [b ->]]. now exists b.
      * intros [b Hb]. injection Hb as -> ->. split; [reflexivity | now exists b].
Qed.

Lemma includes_contains (s p : jsstring) :
  includes s p = true <-> contains s p.
Proof.
  unfold contains. induction s as [|c s IH].
  - simpl. rewrite orb_false_r, startsWith_prefix. split.
    + intros [b Hb]. now exists [], b.
    + intros [a [b Hab]]. destruct a; [now exists b | discriminate].
  - cbn [includes]. rewrite orb_true_iff, IH, startsWith_prefix. split.
    + intros [[b Hb] | [a [b Hab]]].
      * now exists [], b.
      * exists (c :: a), b. now rewrite Hab.
    + intros [[|c' a] [b Hab]].
      * left. now exists b.
      * right. injection Hab as -> ->. now exists a, b.
Qed.

(** A text without capitals is found again after [toLowerCase]. *)
Lemma includes_toLowerCase (s p : jsstring) :
  toLowerCase p = p -> contains s p ->
  includes (toLowerCase s) p = true.
Proof.
  intros Hp [a [b ->]]. apply includes_contains.
  exists (toLowerCase a), (toLowerCase b).
  unfold toLowerCase in *. now rewrite !map_app, Hp.
Qed.

(** Something found inside [p] is found wherever [p] is. *)
Lemma contains_trans (s p q : jsstring) :
  contains s p -> contains p q -> contains s q.
Proof.
  intros [a [b ->]] [a' [b' ->]].
  exists (a ++ a'), (b' ++ b). now rewrite <- !app_assoc.
Qed.

End StringFacts.

(* ================================================================== *)
(** * Properties of the viem functions *)
(* ================================================================== *)

Section DigitFacts.

Lemma isDigit_range (c : N) : isDigit c = true -> (48 <= c <= 57)%N.
Proof.
  unfold isDigit. intros H. apply andb_true_iff in H as [H1 H2].
  apply N.leb_le in H1, H2. lia.
Qed.

Lemma digits_fold_from (b : jsstring) (acc : N) :
  fold_left (fun acc c => (10 * acc + (c - 48))%N) b acc
  = (acc * 10 ^ N.of_nat (List.length b) + digitsValue b)%N.
Proof.
  unfold digitsValue. revert acc.
  induction b as [|c b IH]; intros acc.
  - simpl. lia.
  - cbn [fold_left List.length].
    rewrite IH, (IH (10 * 0 + (c - 48))%N).
    replace (N.of_nat (S (List.length b))) with (N.succ (N.of_nat (List.length b)))
      by lia.
    rewrite N.pow_succ_r'. lia.
Qed.

Lemma digitsValue_app (a b : jsstring) :
  digitsValue (a ++ b)
  = (digitsValue a * 10 ^ N.of_nat (List.length b) + digitsValue b)%N.
Proof.
  unfold digitsValue at 1. rewrite fold_left_app.
  apply digits_fold_from.
Qed.

Lemma digitsValue_zeros (k : nat) : digitsValue (repeat ZERO k) = 0%N.
Proof.
  induction k as [|k IH]; [reflexivity|].
  change (repeat ZERO (S k)) with ([ZERO] ++ repeat ZERO k).
  rewrite digitsValue_app, IH. reflexivity.
Qed.

Lemma span_digits_stop (ds rest : jsstring) (c : N) :
  forallb isDigit ds = true -> isDigit c = false ->
  span isDigit (ds ++ c :: rest) = (ds, c :: rest).
Proof.
  intros Hds Hc. induction ds as [|d ds IH]; simpl.
  - now rewrite Hc.
  - simpl in Hds. apply andb_true_iff in Hds as [Hd Hds].
    now rewrite Hd, (IH Hds).
Qed.

Lemma span_digits_all (ds : jsstring) :
  forallb isDigit ds = true -> span isDigit ds = (ds, []).
Proof.
  induction ds as [|d ds IH]; simpl; [reflexivity|].
  intros H. apply andb_true_iff in H as [Hd Hds].
  now rewrite Hd, (IH Hds).
Qed.

Lemma split_no_separator (sep : N) (s : jsstring) :
  forallb (fun c => negb (c =? sep)%N) s = true -> split sep s = [s].
Proof.
  induction s as [|c s IH]; simpl; [reflexivity|].
  intros H. apply andb_true_iff in H as [Hc Hs].
  apply negb_true_iff in Hc. now rewrite Hc, (IH Hs).
Qed.

Lemma split_at_separator (sep : N) (a b : jsstring) :
  forallb (fun c => negb (c =? sep)%N) a = true ->
  split sep (a ++ sep :: b) = a :: split sep b.
Proof.
  induction a as [|c a IH]; simpl.
  - now rewrite N.eqb_refl.
  - intros H. apply andb_true_iff in H as [Hc Ha].
    apply negb_true_iff in Hc. now rewrite Hc, (IH Ha).
Qed.

Lemma digits_no_dot (ds : jsstring) :
  forallb isDigit ds = true ->
  forallb (fun c => negb (c =? DOT)%N) ds = true.
Proof.
  intros H. rewrite forallb_forall in *. intros c Hc.
  specialize (H c Hc). apply isDigit_range in H.
  apply negb_true_iff, N.eqb_neq. unfold DOT. lia.
Qed.

Lemma dropWhile_zeros (s : jsstring) :
  exists k, s = repeat ZERO k ++ dropWhile (N.eqb ZERO) s.
Proof.
  induction s as [|c s [k IH]]; cbn [dropWhile].
  - now exists 0%nat.
  - destruct (N.eqb_spec ZERO c) as [<-|Hc].
    + exists (S k). cbn [repeat app]. now rewrite <- IH.
    + now exists 0%nat.
Qed.

Lemma rev_repeat (k : nat) (c : N) : rev (repeat c k) = repeat c k.
Proof.
  induction k as [|k IH]; [reflexivity|].
  simpl. rewrite IH. clear IH.
  induction k as [|k IH]; [reflexivity|]. simpl. now rewrite IH.
Qed.

(** What [trimTrailingZeros] removes is a run of zeros at the end. *)
Lemma trimTrailingZeros_spec (s : jsstring) :
  exists k, s = trimTrailingZeros s ++ repeat ZERO k.
Proof.
  unfold trimTrailingZeros.
  destruct (dropWhile_zeros (rev s)) as [k Hk]. exists k.
  rewrite <- (rev_involutive s) at 1. rewrite Hk at 1.
  now rewrite rev_app_distr, rev_repeat.
Qed.

Lemma trimTrailingZeros_digits (s : jsstring) :
  forallb isDigit s = true -> forallb isDigit (trimTrailingZeros s) = true.
Proof.
  intros H. destruct (trimTrailingZeros_spec s) as [k Hk].
  rewrite Hk, forallb_app in H. now apply andb_true_iff in H as [H _].
Qed.

Lemma BigInt_digits (s : jsstring) :
  forallb isDigit s = true -> BigInt s = Z.of_N (digitsValue s).
Proof.
  destruct s as [|c s]; [reflexivity|]. simpl. intros H.
  apply andb_true_iff in H as [Hc _].
  apply isDigit_range in Hc.
  replace (c =? MINUS)%N with false; [reflexivity|].
  symmetry. apply N.eqb_neq. unfold MINUS. lia.
Qed.

End DigitFacts.

Section ParseUnitsFacts.
Context {viem : Viem}.

Lemma digits_not_negative (ds : jsstring) :
  forallb isDigit ds = true -> startsWith ds (lit "-") = false.
Proof.
  destruct ds as [|c ds]; [reflexivity|]. simpl. intros H.
  apply andb_true_iff in H as [Hc _]. apply isDigit_range in Hc.
  apply andb_false_iff. left. apply N.eqb_neq. lia.
Qed.

Lemma optionalMinus_digit (c : N) (s : jsstring) :
  isDigit c = true \/ c = DOT -> optionalMinus (c :: s) = c :: s.
Proof.
  intros Hc. unfold optionalMinus.
  replace (c =? MINUS)%N with false; [reflexivity|].
  symmetry. apply N.eqb_neq. unfold MINUS, DOT in *.
  destruct Hc as [Hc | ->]; [apply isDigit_range in Hc|]; lia.
Qed.

Lemma isDecimalNumber_dotted (ip fp : jsstring) :
  forallb isDigit ip = true -> forallb isDigit fp = true ->
  isDecimalNumber (ip ++ DOT :: fp) = true.
Proof.
  intros Hip Hfp. unfold isDecimalNumber.
  assert (Hsign : optionalMinus (ip ++ DOT :: fp) = ip ++ DOT :: fp).
  { destruct ip as [|c ip]; cbn [app].
    - apply optionalMinus_digit. now right.
    - apply optionalMinus_digit. left. simpl in Hip.
      now apply andb_true_iff in Hip as [Hc _]. }
  rewrite Hsign, (span_digits_stop ip fp DOT Hip eq_refl).
  now rewrite N.eqb_refl.
Qed.

Lemma isDecimalNumber_integer (ip : jsstring) :
  forallb isDigit ip = true -> isDecimalNumber ip = true.
Proof.
  intros Hip. unfold isDecimalNumber.
  assert (Hsign : optionalMinus ip = ip).
  { destruct ip as [|c ip]; [reflexivity|].
    apply optionalMinus_digit. left. simpl in Hip.
    now apply andb_true_iff in Hip as [Hc _]. }
  now rewrite Hsign, (span_digits_all ip Hip).
Qed.

(** The digits [ip], then a fraction [f] padded with zeros to 18 places,
    read as one integer. *)
Lemma BigInt_padded (ip f : jsstring) :
  forallb isDigit ip = true -> forallb isDigit f = true ->
  (List.length f <= 18)%nat ->
  BigInt ([] ++ ip ++ padEnd0 f 18) = scaleBy18 ip f.
Proof.
  intros Hip Hf Hlen. unfold padEnd0, scaleBy18. cbn [app].
  rewrite BigInt_digits.
  - rewrite !digitsValue_app, digitsValue_zeros, length_app, repeat_length.
    replace (List.length f + (18 - List.length f))%nat with 18%nat by lia.
    rewrite N.add_0_r, !N2Z.inj_add, !N2Z.inj_mul, !N2Z.inj_pow.
    rewrite !nat_N_Z. change (Z.of_N 10) with 10%Z.
    replace (Z.of_nat (18 - List.length f)) with (18 - Z.of_nat (List.length f))%Z
      by lia.
    change (Z.of_nat 18) with 18%Z. reflexivity.
  - rewrite !forallb_app, Hip, Hf. simpl.
    apply forallb_forall. intros c Hc. apply repeat_spec in Hc. now subst c.
Qed.

(** [parseUnits] on a plain decimal with at most 18 fraction digits: the
    amount, times 10^18, exactly. *)
Lemma parseUnits_dotted (ip fp : jsstring) :
  forallb isDigit ip = true -> forallb isDigit fp = true ->
  (List.length fp <= 18)%nat ->
  parseUnits (ip ++ DOT :: fp) 18 = Normal (scaleBy18 ip fp).
Proof.
  intros Hip Hfp Hlen. unfold parseUnits.
  rewrite (isDecimalNumber_dotted ip fp Hip Hfp). cbn [negb].
  rewrite (split_at_separator DOT ip fp (digits_no_dot ip Hip)).
  rewrite (split_no_separator DOT fp (digits_no_dot fp Hfp)).
  cbn [nth nth_error]. rewrite (digits_not_negative ip Hip).
  destruct (trimTrailingZeros_spec fp) as [k Hk].
  pose proof (trimTrailingZeros_digits fp Hfp) as Hf.
  set (f := trimTrailingZeros fp) in *.
  assert (Hflen : (List.length f + k <= 18)%nat).
  { rewrite Hk, length_app, repeat_length in Hlen. exact Hlen. }
  change (18 =? 0)%nat with false. cbv iota.
  replace (18 <? List.length f)%nat with false
    by (symmetry; apply Nat.ltb_ge; lia).
  f_equal. rewrite (BigInt_padded ip f Hip Hf) by lia.
  unfold scaleBy18. f_equal. clearbody f. rewrite Hk.
  rewrite digitsValue_app, digitsValue_zeros, length_app, repeat_length.
  rewrite N.add_0_r, N2Z.inj_mul, N2Z.inj_pow, nat_N_Z.
  change (Z.of_N 10) with 10%Z. rewrite <- Z.mul_assoc, <- Z.pow_add_r by lia.
  do 2 f_equal. lia.
Qed.

Lemma parseUnits_integer (ip : jsstring) :
  forallb isDigit ip = true ->
  parseUnits ip 18 = Normal (scaleBy18 ip []).
Proof.
  intros Hip. unfold parseUnits.
  rewrite (isDecimalNumber_integer ip Hip). cbn [negb].
  rewrite (split_no_separator DOT ip (digits_no_dot ip Hip)).
  cbn [nth nth_error]. rewrite (digits_not_negative ip Hip).
  change (trimTrailingZeros (lit "0")) with (@nil N).
  change (18 =? 0)%nat with false. cbv iota.
  change (18 <? List.length (@nil N))%nat with false. cbv iota.
  f_equal. apply BigInt_padded; [assumption | reflexivity | simpl; lia].
Qed.

End ParseUnitsFacts.

Section EncodeFacts.
Context {viem : Viem}.

Lemma hexFixed_length (w : nat) (v : N) : List.length (hexFixed w v) = w.
Proof.
  revert v; induction w as [|w IH]; intros v; [reflexivity|].
  cbn [hexFixed]. rewrite length_app, IH. simpl. lia.
Qed.

Lemma hexDigitValue_hexDigit (d : N) :
  (d < 16)%N -> hexDigitValue (hexDigit d) = d.
Proof.
  intros Hd. unfold hexDigit, hexDigitValue.
  destruct (N.ltb_spec d 10).
  - destruct (N.ltb_spec (48 + d) 58); lia.
  - destruct (N.ltb_spec (87 + d) 58); lia.
Qed.

(** The digits written by [hexFixed] read back as the number. *)
Lemma hexValue_hexFixed (w : nat) (v : N) :
  hexValue (hexFixed w v) = (v mod 16 ^ N.of_nat w)%N.
Proof.
  revert v; induction w as [|w IH]; intros v.
  - simpl. now rewrite N.mod_1_r.
  - cbn [hexFixed]. unfold hexValue in *. rewrite fold_left_app. cbn [fold_left].
    rewrite IH, hexDigitValue_hexDigit by (apply N.mod_lt; lia).
    replace (N.of_nat (S w)) with (N.succ (N.of_nat w)) by lia.
    rewrite N.pow_succ_r', N.Div0.mod_mul_r. lia.
Qed.

Lemma addressRegex_length (a : jsstring) :
  addressRegex a = true -> List.length a = 42%nat.
Proof.
  unfold addressRegex. intros H.
  apply andb_true_iff in H as [H _]. apply andb_true_iff in H as [_ H].
  now apply Nat.eqb_eq in H.
Qed.

(** What [encodeFunctionData] returns, and when. *)
Lemma encodeFunctionData_normal (recipient : jsstring) (amt : Z)
    (data : jsstring) :
  encodeFunctionData recipient amt = Normal data ->
  isAddress recipient = true /\ (0 <= amt <= MAX_UINT256)%Z /\
  data = lit "0x" ++ transferSelector
         ++ padStart0 (skipn 2 (toLowerCase recipient)) 64
         ++ hexFixed 64 (Z.to_N amt).
Proof.
  unfold encodeFunctionData.
  destruct (isAddress recipient); cbn [negb]; [|discriminate].
  destruct (Z.ltb_spec MAX_UINT256 amt); cbn [orb]; [discriminate|].
  destruct (Z.ltb_spec amt 0); [discriminate|].
  intros [= <-]. repeat split; lia.
Qed.

Lemma encoded_prefix_length (recipient : jsstring) :
  isAddress recipient = true ->
  List.length (lit "0x" ++ transferSelector
               ++ padStart0 (skipn 2 (toLowerCase recipient)) 64) = 74%nat.
Proof.
  intros H. unfold isAddress in H. apply andb_true_iff in H as [H _].
  apply addressRegex_length in H.
  unfold padStart0, toLowerCase.
  rewrite !length_app, repeat_length, length_skipn, length_map, H.
  reflexivity.
Qed.

Lemma encodeFunctionData_length (recipient : jsstring) (amt : Z)
    (data : jsstring) :
  encodeFunctionData recipient amt = Normal data ->
  List.length data = 138%nat.
Proof.
  intros H. apply encodeFunctionData_normal in H as (Ha & _ & ->).
  pose proof (encoded_prefix_length recipient Ha) as Hp.
  rewrite !length_app in *. rewrite hexFixed_length. lia.
Qed.

(** The second word of the call data is the amount. *)
Lemma transferAmountOf_encoded (recipient : jsstring) (amt : Z)
    (data : jsstring) :
  encodeFunctionData recipient amt = Normal data ->
  transferAmountOf data = amt.
Proof.
  intros H. apply encodeFunctionData_normal in H as (Ha & Hr & ->).
  pose proof (encoded_prefix_length recipient Ha) as Hp.
  unfold transferAmountOf, slice.
  rewrite !app_assoc in *. rewrite skipn_app, Hp.
  rewrite skipn_all2 by lia. cbn [app Nat.sub skipn].
  rewrite firstn_all2 by (rewrite hexFixed_length; lia).
  rewrite hexValue_hexFixed, N.mod_small.
  - apply Z2N.id. lia.
  - change (16 ^ N.of_nat 64)%N with (Z.to_N (2 ^ 256)).
    unfold MAX_UINT256 in Hr. apply Z2N.inj_lt; lia.
Qed.

(** The self-check on the call data never fires. *)
Lemma encoded_data_accepted (recipient : jsstring) (amt : Z)
    (data : jsstring) :
  encodeFunctionData recipient amt = Normal data ->
  negb (truthy data) || strictEquals data hexPrefix
  || (List.length data <? 10)%nat = false.
Proof.
  intros H. pose proof (encodeFunctionData_length _ _ H) as Hlen.
  destruct data as [|c0 [|c1 [|c2 data]]]; try discriminate.
  cbn [truthy negb orb]. rewrite Hlen.
  replace (strictEquals (c0 :: c1 :: c2 :: data) hexPrefix) with false.
  - reflexivity.
  - simpl. now rewrite !andb_false_r.
Qed.

End EncodeFacts.

(* ================================================================== *)
(** * How a payment runs *)
(* ================================================================== *)

Section PaymentFacts.
Context {viem : Viem} {celo : Celo}.

Lemma onError_eq (v : JsValue) (t : list Event) :
  onError v t =
  if isEncodingError v
  then (Normal (failureResult responseProcessingMessage), t ++ [topLevelWarning])
  else (Normal (failureResult (guidanceFor v)), t ++ [paymentErrorLine v]).
Proof.
  unfold onError, guidanceFor, bind, emit, ret.
  destruct (isEncodingError v); [reflexivity|].
  fold (errorMessageOf v).
  fold (mentionsFunding (errorMessageOf v)).
  fold (mentionsSponsorship (errorMessageOf v)).
  destruct (mentionsFunding (errorMessageOf v)); [reflexivity|].
  destruct (mentionsSponsorship (errorMessageOf v)); reflexivity.
Qed.

(** The outer [catch] always returns, and always a failure. *)
Lemma onError_returns (v : JsValue) (t : list Event) :
  exists m e, onError v t = (Normal (failureResult m), t ++ [e])
              /\ isNetworkCall e = false.
Proof.
  rewrite onError_eq. destruct (isEncodingError v); eauto.
Qed.

Lemma awaitReceipt_eq (k : KernelAccountClient) (h : jsstring)
    (t : list Event) :
  awaitReceipt k h t =
  match waitForUserOperationReceipt k h with
  | Throw e =>
    if isEncodingError e
    then (Normal (successResult h),
          (t ++ [WaitForUserOperationReceipt h]) ++ [receiptWaitWarning])
    else (Throw e, t ++ [WaitForUserOperationReceipt h])
  | Normal rc =>
    match hashOfReceipt rc with
    | Some tx =>
      if truthy tx
      then (Normal (successResult tx), t ++ [WaitForUserOperationReceipt h])
      else (Throw (ErrorObject missingHashMessage),
            t ++ [WaitForUserOperationReceipt h])
    | None => (Throw (ErrorObject missingHashMessage),
               t ++ [WaitForUserOperationReceipt h])
    end
  end.
Proof.
  unfold awaitReceipt, bind, tryCatch, callWaitForUserOperationReceipt,
    emit, ret, throw, successResult.
  destruct (waitForUserOperationReceipt k h) as [rc|e].
  - destruct (hashOfReceipt rc) as [tx|]; [|reflexivity].
    cbn [notSet option_map]. destruct (truthy tx); reflexivity.
  - destruct (isEncodingError e); reflexivity.
Qed.

(** Every way a submitted payment can end. *)
Lemma submit_eq (k : KernelAccountClient) (calls : list Call) :
  submit k calls =
  match sendUserOperation k calls with
  | Throw v => onError v [SendUserOperation calls]
  | Normal h =>
    match waitForUserOperationReceipt k h with
    | Throw e =>
      if isEncodingError e
      then (Normal (successResult h),
            [SendUserOperation calls; WaitForUserOperationReceipt h;
             receiptWaitWarning])
      else onError e [SendUserOperation calls; WaitForUserOperationReceipt h]
    | Normal rc =>
      match hashOfReceipt rc with
      | Some tx =>
        if truthy tx
        then (Normal (successResult tx),
              [SendUserOperation calls; WaitForUserOperationReceipt h])
        else onError (ErrorObject missingHashMessage)
               [SendUserOperation calls; WaitForUserOperationReceipt h]
      | None =>
        onError (ErrorObject missingHashMessage)
          [SendUserOperation calls; WaitForUserOperationReceipt h]
      end
    end
  end.
Proof.
  unfold submit, tryCatch, bind, callSendUserOperation. cbn [app].
  destruct (sendUserOperation k calls) as [h|v]; [|reflexivity].
  rewrite awaitReceipt_eq. cbn [app].
  destruct (waitForUserOperationReceipt k h) as [rc|e].
  - destruct (hashOfReceipt rc) as [tx|]; [|reflexivity].
    destruct (truthy tx); reflexivity.
  - destruct (isEncodingError e); reflexivity.
Qed.

(** The calls on the kernel client in a submitted payment: the submission
    of [calls], then the wait if an identifier came back. *)
Lemma submit_networkCalls (k : KernelAccountClient) (calls : list Call) :
  networkCalls (snd (submit k calls)) =
  SendUserOperation calls ::
  match sendUserOperation k calls with
  | Normal h => [WaitForUserOperationReceipt h]
  | Throw _ => []
  end.
Proof.
  rewrite submit_eq.
  destruct (sendUserOperation k calls) as [h|v].
  - destruct (waitForUserOperationReceipt k h) as [rc|e].
    + destruct (hashOfReceipt rc) as [tx|].
      * destruct (truthy tx); [reflexivity|].
        rewrite onError_eq. reflexivity.
      * rewrite onError_eq. reflexivity.
    + destruct (isEncodingError e) eqn:He; [reflexivity|].
      rewrite onError_eq, He. reflexivity.
  - rewrite onError_eq. destruct (isEncodingError v); reflexivity.
Qed.

(** The two validations, when they reject. *)
Lemma run_addressRejected (k : KernelAccountClient) (p : PaymentParams) :
  addressRejected (to p) = true ->
  run k p = (Normal (failureResult invalidAddressMessage), []).
Proof.
  intros H. unfold run, sendPaymentWithKernel, tryCatch. now rewrite H.
Qed.

Lemma run_amountRejected (k : KernelAccountClient) (p : PaymentParams) :
  addressRejected (to p) = false -> amountRejected (amount p) = true ->
  run k p = (Normal (failureResult invalidAmountMessage), []).
Proof.
  intros Ha Hm. unfold run, sendPaymentWithKernel, tryCatch.
  now rewrite Ha, Hm.
Qed.

(** The CELO branch: the amount is converted, then the call is
    submitted. *)
Lemma run_native (k : KernelAccountClient) (p : PaymentParams) :
  addressRejected (to p) = false -> amountRejected (amount p) = false ->
  currency p = CELO ->
  run k p =
  match parseEther (amount p) with
  | Normal amountInWei =>
    submit k [ {| call_to := to p;
                  call_value := amountInWei;
                  call_data := hexPrefix |} ]
  | Throw v => onError v []
  end.
Proof.
  intros Ha Hm Hc. unfold run, submit, sendPaymentWithKernel.
  unfold tryCatch at 1. rewrite Ha, Hm, Hc.
  unfold nativeTransfer, pure, bind at 1.
  destruct (parseEther (amount p)) as [amountInWei|v]; reflexivity.
Qed.

(** The token branch: the table is read, the amount converted, the call
    data encoded; the three self-checks pass; the call is submitted. *)
Lemma run_token (k : KernelAccountClient) (p : PaymentParams) :
  addressRejected (to p) = false -> amountRejected (amount p) = false ->
  currency p <> CELO ->
  run k p =
  match CELO_STABLE_TOKENS (currency p) with
  | None =>
    (Normal (failureResult (notConfiguredMessage (currencyName (currency p)))),
     [])
  | Some tokenAddress =>
    if negb (truthy tokenAddress)
    then (Normal (failureResult
                    (notConfiguredMessage (currencyName (currency p)))), [])
    else
      match parseUnits (amount p) 18 with
      | Throw v => onError v []
      | Normal amountInWei =>
        match encodeFunctionData (to p) amountInWei with
        | Throw v => onError v []
        | Normal data =>
          submit k [ {| call_to := tokenAddress;
                        call_value := 0%Z;
                        call_data := data |} ]
        end
      end
  end.
Proof.
  intros Ha Hm Hc.
  assert (Hrun : run k p =
                 tryCatch (tokenTransfer k p) onError []).
  { unfold run, sendPaymentWithKernel, tryCatch. rewrite Ha, Hm.
    destruct (currency p) eqn:E; [contradiction | reflexivity ..]. }
  rewrite Hrun. unfold tokenTransfer, tryCatch at 1.
  destruct (CELO_STABLE_TOKENS (currency p)) as [tokenAddress|]; [|reflexivity].
  destruct (truthy tokenAddress); cbn [negb]; [|reflexivity].
  unfold pure, bind at 1.
  destruct (parseUnits (amount p) 18) as [amountInWei|v]; [|reflexivity].
  unfold bind at 1.
  destruct (encodeFunctionData (to p) amountInWei) as [data|v] eqn:Hdata;
    [|reflexivity].
  cbn [call_to call_value call_data].
  rewrite strictEquals_refl, (encoded_data_accepted _ _ Hdata).
  reflexivity.
Qed.

(** A payment ends in one of three ways: a result returned before
    anything is tried, an error thrown before the submission and answered
    by the outer [catch], or the submission of one call object. *)
Lemma run_cases (k : KernelAccountClient) (p : PaymentParams) :
  (exists m, run k p = (Normal (failureResult m), []))
  \/ (exists v, run k p = onError v [])
  \/ (exists call,
        addressRejected (to p) = false /\ amountRejected (amount p) = false
        /\ Envelope p call /\ run k p = submit k [call]).
Proof.
  destruct (addressRejected (to p)) eqn:Ha.
  { left. eexists. now apply run_addressRejected. }
  destruct (amountRejected (amount p)) eqn:Hm.
  { left. eexists. now apply run_amountRejected. }
  destruct (currency p) eqn:Hc.
  1: { rewrite (run_native k p Ha Hm Hc).
       destruct (parseEther (amount p)) as [amountInWei|v] eqn:Hp.
       - right. right. eexists. repeat split.
         now apply NativeEnvelope.
       - right. left. now exists v. }
  all: assert (Hne : currency p <> CELO) by (rewrite Hc; discriminate).
  all: rewrite (run_token k p Ha Hm Hne), Hc.
  all: rewrite <- Hc.
  all: destruct (CELO_STABLE_TOKENS (currency p)) as [tokenAddress|] eqn:Ht;
    [|left; eexists; reflexivity].
  all: destruct (truthy tokenAddress) eqn:Htr; cbn [negb];
    [|left; eexists; reflexivity].
  all: destruct (parseUnits (amount p) 18) as [amountInWei|v] eqn:Hp;
    [|right; left; now exists v].
  all: destruct (encodeFunctionData (to p) amountInWei) as [data|v] eqn:Hd;
    [|right; left; now exists v].
  all: right; right; eexists; repeat split.
  all: now apply (TokenEnvelope p Hne Ht Htr Hp Hd).
Qed.

(** Once the validations pass and the call object is built, it is
    submitted. *)
Lemma run_submit (k : KernelAccountClient) (p : PaymentParams) (call : Call) :
  addressRejected (to p) = false -> amountRejected (amount p) = false ->
  Envelope p call ->
  run k p = submit k [call].
Proof.
  intros Ha Hm [a Hc Hp | t a d Hc Ht Htr Hp Hd].
  - now rewrite (run_native k p Ha Hm Hc), Hp.
  - now rewrite (run_token k p Ha Hm Hc), Ht, Htr, Hp, Hd.
Qed.

(** The trace of the outer [catch] adds one console line. *)
Lemma onError_no_call (v : JsValue) (t : list Event) (e : Event) :
  In e (snd (onError v t)) -> isNetworkCall e = true -> In e t.
Proof.
  destruct (onError_returns v t) as (m & e' & -> & He').
  cbn [snd]. intros Hin Hnet. apply in_app_or in Hin as [Hin | [<- | []]].
  - exact Hin.
  - congruence.
Qed.

(** A submission seen in the trace is the submission of the call object
    built from the parameters, after both validations passed. *)
Lemma run_sent (k : KernelAccountClient) (p : PaymentParams)
    (calls : list Call) :
  In (SendUserOperation calls) (snd (run k p)) ->
  exists call,
    calls = [call] /\ Envelope p call
    /\ addressRejected (to p) = false /\ amountRejected (amount p) = false
    /\ run k p = submit k [call].
Proof.
  intros Hin.
  destruct (run_cases k p) as [[m Hr] | [[v Hr] | [c (Ha & Hm & Hc & Hr)]]].
  - rewrite Hr in Hin. destruct Hin.
  - rewrite Hr in Hin. apply onError_no_call in Hin as []. reflexivity.
  - exists c. repeat split; try assumption.
    rewrite Hr in Hin.
    assert (Hn : In (SendUserOperation calls) (networkCalls (snd (submit k [c]))))
      by (apply filter_In; split; [exact Hin | reflexivity]).
    rewrite submit_networkCalls in Hn. destruct Hn as [Hn | Hn].
    + now injection Hn as <-.
    + destruct (sendUserOperation k [c]); [destruct Hn as [Hn | []]|destruct Hn].
      discriminate.
Qed.

(** Nothing reaches the kernel client unless a call object is submitted. *)
Lemma run_no_submission (k : KernelAccountClient) (p : PaymentParams) :
  (forall calls, ~ In (SendUserOperation calls) (snd (run k p))) ->
  networkCalls (snd (run k p)) = [].
Proof.
  intros Hno.
  destruct (run_cases k p) as [[m Hr] | [[v Hr] | [c (_ & _ & _ & Hr)]]].
  - now rewrite Hr.
  - rewrite Hr. destruct (onError_returns v []) as (m & e & -> & He).
    cbn. now rewrite He.
  - exfalso. apply (Hno [c]). rewrite Hr.
    assert (Hn : In (SendUserOperation [c]) (networkCalls (snd (submit k [c]))))
      by (rewrite submit_networkCalls; now left).
    now apply filter_In in Hn as [Hn _].
Qed.

(** The downgrade: the operation was submitted, the wait failed with
    the encoding error. *)
Lemma benign_downgrade (k : KernelAccountClient) (p : PaymentParams)
    (calls : list Call) (h : jsstring) (e : JsValue) :
  In (SendUserOperation calls) (snd (run k p)) ->
  sendUserOperation k calls = Normal h ->
  waitForUserOperationReceipt k h = Throw e ->
  isEncodingError e = true ->
  run k p =
  (Normal (successResult h),
   [SendUserOperation calls; WaitForUserOperationReceipt h;
    receiptWaitWarning]).
Proof.
  intros Hin Hs Hw He.
  destruct (run_sent k p calls Hin) as (c & -> & _ & _ & _ & ->).
  now rewrite submit_eq, Hs, Hw, He.
Qed.

(** A wait that fails with any other error is answered by the outer
    [catch]. *)
Lemma hard_failure (k : KernelAccountClient) (p : PaymentParams)
    (calls : list Call) (h : jsstring) (e : JsValue) :
  In (SendUserOperation calls) (snd (run k p)) ->
  sendUserOperation k calls = Normal h ->
  waitForUserOperationReceipt k h = Throw e ->
  isEncodingError e = false ->
  run k p =
  (Normal (failureResult (guidanceFor e)),
   [SendUserOperation calls; WaitForUserOperationReceipt h;
    paymentErrorLine e]).
Proof.
  intros Hin Hs Hw He.
  destruct (run_sent k p calls Hin) as (c & -> & _ & _ & _ & ->).
  now rewrite submit_eq, Hs, Hw, He, onError_eq, He.
Qed.

Lemma isEncodingError_message (msg : jsstring) :
  isEncodingError (ErrorObject msg)
  = includes msg INVALID_CODEPOINT
    || includes msg MISSING_CONTINUATION_BYTE
    || includes msg STRINGS_5_7_0.
Proof. reflexivity. Qed.

(** Facts about the fixed texts, by evaluation. *)
Lemma missingHash_not_encoding :
  isEncodingError (ErrorObject missingHashMessage) = false.
Proof. vm_compute. reflexivity. Qed.

Lemma missingHash_guidance :
  guidanceFor (ErrorObject missingHashMessage) = missingHashMessage.
Proof. vm_compute. reflexivity. Qed.

Lemma missingHash_not_empty : truthy missingHashMessage = true.
Proof. vm_compute. reflexivity. Qed.

Lemma keywords_lower_case :
  toLowerCase INSUFFICIENT_FUNDS = INSUFFICIENT_FUNDS
  /\ toLowerCase BILLING_PLAN = BILLING_PLAN
  /\ toLowerCase FUND = FUND.
Proof. vm_compute. repeat split. Qed.

Lemma insufficient_funds_has_fund : contains INSUFFICIENT_FUNDS FUND.
Proof. apply includes_contains. vm_compute. reflexivity. Qed.

Lemma fundingGuidance_end (m : jsstring) :
  exists r, rev (fundingGuidance m) = 46%N :: r.
Proof.
  unfold fundingGuidance. rewrite rev_app_distr.
  eexists. vm_compute. reflexivity.
Qed.

Lemma sponsorshipGuidance_end :
  exists r, rev sponsorshipGuidance = 111%N :: r.
Proof. eexists. vm_compute. reflexivity. Qed.

Lemma guidance_distinct (m : jsstring) : sponsorshipGuidance <> fundingGuidance m.
Proof.
  intros H. destruct (fundingGuidance_end m) as [r1 H1].
  destruct sponsorshipGuidance_end as [r2 H2].
  rewrite <- H, H2 in H1. discriminate.
Qed.

(** Every payment returns, with a failure or with one of the two
    successes. *)
Lemma run_returns (k : KernelAccountClient)
    (p : PaymentParams) :
  exists r t,
    run k p = (Normal r, t)
    /\ ((exists m, r = {| success := false;
                          transactionHash := None;
                          error := Some m;
                          explorerUrl := None |})
        \/ (exists calls h,
              In (SendUserOperation calls) t
              /\ sendUserOperation k calls = Normal h
              /\ ((exists e,
                     waitForUserOperationReceipt k h = Throw e
                     /\ isEncodingError e = true
                     /\ r = successResult h)
                  \/ (exists rc tx,
                        waitForUserOperationReceipt k h = Normal rc
                        /\ hashOfReceipt rc = Some tx
                        /\ truthy tx = true
                        /\ r = successResult tx)))).
Proof.
  destruct (run_cases k p) as [[m Hr] | [[v Hr] | [c (_ & _ & _ & Hr)]]].
  - exists (failureResult m), []. split; [exact Hr|]. left. now exists m.
  - destruct (onError_returns v []) as (m & e & He & _).
    exists (failureResult m), ([] ++ [e]). split; [congruence|].
    left. now exists m.
  - rewrite Hr, submit_eq.
    destruct (sendUserOperation k [c]) as [h|v] eqn:Hs.
    + destruct (waitForUserOperationReceipt k h) as [rc|e] eqn:Hw.
      * destruct (hashOfReceipt rc) as [tx|] eqn:Hh.
        -- destruct (truthy tx) eqn:Htx.
           ++ do 2 eexists. split; [reflexivity|]. right.
              exists [c], h. split; [now left|]. split; [exact Hs|].
              right. now exists rc, tx.
           ++ destruct (onError_returns (ErrorObject missingHashMessage)
                          [SendUserOperation [c]; WaitForUserOperationReceipt h])
                as (m & e & -> & _).
              do 2 eexists. split; [reflexivity|]. left. now exists m.
        -- destruct (onError_returns (ErrorObject missingHashMessage)
                       [SendUserOperation [c]; WaitForUserOperationReceipt h])
             as (m & e & -> & _).
           do 2 eexists. split; [reflexivity|]. left. now exists m.
      * destruct (isEncodingError e) eqn:He.
        -- do 2 eexists. split; [reflexivity|]. right.
           exists [c], h. split; [now left|]. split; [exact Hs|].
           left. now exists e.
        -- destruct (onError_returns e
                       [SendUserOperation [c]; WaitForUserOperationReceipt h])
             as (m & e' & -> & _).
           do 2 eexists. split; [reflexivity|]. left. now exists m.
    + destruct (onError_returns v [SendUserOperation [c]]) as (m & e & -> & _).
      do 2 eexists. split; [reflexivity|]. left. now exists m.
Qed.

End PaymentFacts.

Section EncodedRecipient.
Context {viem : Viem}.

Lemma lowered_address (a : jsstring) :
  isAddress a = true ->
  toLowerCase a = lit "0x" ++ skipn 2 (toLowerCase a)
  /\ List.length (skipn 2 (toLowerCase a)) = 40%nat.
Proof.
  intros H. unfold isAddress in H. apply andb_true_iff in H as [H _].
  pose proof (addressRegex_length a H) as Hlen.
  unfold addressRegex in H. apply andb_true_iff in H as [H _].
  apply andb_true_iff in H as [H _].
  apply startsWith_prefix in H as [b ->]. split.
  - reflexivity.
  - unfold toLowerCase. rewrite length_skipn, length_map, Hlen. reflexivity.
Qed.

(** The first word of the call data ends with the recipient, in lower
    case. *)
Lemma transferRecipientOf_encoded (recipient : jsstring) (amt : Z)
    (data : jsstring) :
  encodeFunctionData recipient amt = Normal data ->
  transferRecipientOf data = toLowerCase recipient.
Proof.
  intros H. apply encodeFunctionData_normal in H as (Ha & _ & ->).
  destruct (lowered_address recipient Ha) as [Hlow Hlen].
  rewrite Hlow at 2. unfold transferRecipientOf. f_equal.
  set (body := skipn 2 (toLowerCase recipient)) in *.
  unfold padStart0. rewrite Hlen.
  change (lit "0x" ++ transferSelector ++ (repeat ZERO (64 - 40) ++ body)
          ++ hexFixed 64 (Z.to_N amt))
    with ((lit "0x" ++ transferSelector ++ repeat ZERO 24)
          ++ body ++ hexFixed 64 (Z.to_N amt)).
  unfold slice. rewrite skipn_app.
  change (List.length (lit "0x" ++ transferSelector ++ repeat ZERO 24))
    with 34%nat.
  rewrite skipn_all2 by (vm_compute; lia).
  cbn [Nat.sub skipn app].
  rewrite firstn_app, Hlen, firstn_all2 by lia.
  cbn [Nat.sub firstn]. apply app_nil_r.
Qed.

(** The call data opens with the selector. *)
Lemma encoded_selector (recipient : jsstring) (amt : Z) (data : jsstring) :
  encodeFunctionData recipient amt = Normal data ->
  startsWith data (lit "0xa9059cbb") = true.
Proof.
  intros H. apply encodeFunctionData_normal in H as (_ & _ & ->).
  apply startsWith_prefix. eexists. rewrite app_assoc. reflexivity.
Qed.

End EncodedRecipient.

(* ================================================================== *)
(** * The properties of the payment module *)
(* ================================================================== *)

Section PaymentClaims.
Context {viem : Viem} {celo : Celo}.

(** C1, as the code has it.  When the operation was submitted under the
    identifier [h] and the wait for its receipt fails with an [Error]
    whose message contains "invalid codepoint", the payment returns
    [success = true], [transactionHash = h] and the explorer link of [h],
    and no [error] field: the remark that the transaction may have
    succeeded goes to [console.warn] only, after the two calls on the
    kernel client. *)
Theorem codepoint_failure_downgraded (k : KernelAccountClient)
    (p : PaymentParams) (calls : list Call) (h msg : jsstring) :
  In (SendUserOperation calls) (snd (run k p)) ->
  sendUserOperation k calls = Normal h ->
  waitForUserOperationReceipt k h = Throw (ErrorObject msg) ->
  contains msg INVALID_CODEPOINT ->
  run k p =
  (Normal {| success := true;
             transactionHash := Some h;
             error := None;
             explorerUrl := Some (getCeloExplorerUrl h txKind) |},
   [SendUserOperation calls; WaitForUserOperationReceipt h;
    receiptWaitWarning]).
Proof.
  intros Hin Hs Hw Hmsg.
  apply (benign_downgrade k p calls Hin Hs Hw).
  rewrite isEncodingError_message.
  apply includes_contains in Hmsg. now rewrite Hmsg.
Qed.

(** C2.  A payment never throws: whatever the parameters and whatever the
    kernel client does, it returns a result.  The result is a failure
    ([success = false] with an [error] text, no hash) in every case but
    two, both after an accepted submission: the wait gave a receipt with
    a transaction hash, or it failed with the encoding error. *)
Theorem sendPaymentWithKernel_always_returns (k : KernelAccountClient)
    (p : PaymentParams) :
  exists r t,
    run k p = (Normal r, t)
    /\ ((exists m, r = {| success := false;
                          transactionHash := None;
                          error := Some m;
                          explorerUrl := None |})
        \/ (exists calls h,
              In (SendUserOperation calls) t
              /\ sendUserOperation k calls = Normal h
              /\ ((exists e,
                     waitForUserOperationReceipt k h = Throw e
                     /\ isEncodingError e = true
                     /\ r = successResult h)
                  \/ (exists rc tx,
                        waitForUserOperationReceipt k h = Normal rc
                        /\ hashOfReceipt rc = Some tx
                        /\ truthy tx = true
                        /\ r = successResult tx)))).
Proof. exact (run_returns k p). Qed.

(** C3, as the code has it.  A recipient that is empty, does not start
    with "0x" or is not 42 units long is rejected with the invalid-address
    result before anything else happens: the trace is empty, nothing is
    asked of the kernel client.  (Whether the 40 units after the prefix
    are hexadecimal digits is not looked at.) *)
Theorem malformed_recipient_rejected (k : KernelAccountClient)
    (p : PaymentParams) :
  to p = [] \/ startsWith (to p) hexPrefix = false
  \/ List.length (to p) <> 42%nat ->
  run k p =
  (Normal {| success := false;
             transactionHash := None;
             error := Some invalidAddressMessage;
             explorerUrl := None |},
   []).
Proof.
  intros H. apply run_addressRejected. unfold addressRejected.
  destruct H as [H | [H | H]].
  - now rewrite H.
  - rewrite H. cbn [negb]. now rewrite orb_true_r.
  - apply Nat.eqb_neq in H. rewrite H. cbn [negb]. now rewrite orb_true_r.
Qed.

(** An amount that passes the validation and that [parseUnits] refuses
    (a number followed by text, an exponent, "Infinity") fails as well
    before anything is asked of the kernel client, with the text the
    outer [catch] makes of the error of viem. *)
Lemma unconvertible_amount_fails (k : KernelAccountClient)
    (p : PaymentParams) (v : JsValue) :
  parseUnits (amount p) 18 = Throw v ->
  exists m t, run k p = (Normal (failureResult m), t)
              /\ networkCalls t = [].
Proof.
  intros Hp.
  assert (Hcatch : forall w, exists m t,
             onError w [] = (Normal (failureResult m), t)
             /\ networkCalls t = []).
  { intros w. destruct (onError_returns w []) as (m & e & -> & He).
    exists m, ([] ++ [e]). split; [reflexivity|]. cbn. now rewrite He. }
  destruct (run_cases k p) as [[m Hr] | [[w Hr] | [c (_ & _ & Hc & _)]]].
  - exists m, []. now split.
  - rewrite Hr. apply Hcatch.
  - exfalso. destruct Hc as [a _ Hp' | tokenAddress a data _ _ _ Hp' _].
    + unfold parseEther in Hp'. congruence.
    + congruence.
Qed.

(** The texts of the two validations and of an unconfigured token are
    three different texts. *)
Lemma validation_messages_distinct (currencyText : jsstring) :
  invalidAddressMessage <> invalidAmountMessage
  /\ notConfiguredMessage currencyText <> invalidAmountMessage.
Proof.
  split; intros H; vm_compute in H; discriminate H.
Qed.

Lemma failureResult_inj (a b : jsstring) :
  Normal (failureResult a) = Normal (failureResult b) -> a = b.
Proof.
  intros H. injection H as H. exact H.
Qed.

(** Whatever went through the outer [catch] left a line on the console,
    and whatever was submitted left the submission on the trace. *)
Lemma onError_trace (v : JsValue) (t : list Event) :
  snd (onError v t) <> [].
Proof.
  destruct (onError_returns v t) as (m & e & -> & _).
  cbn [snd]. destruct t; discriminate.
Qed.

Lemma submit_trace (k : KernelAccountClient) (calls : list Call) :
  snd (submit k calls) <> [].
Proof.
  rewrite submit_eq.
  destruct (sendUserOperation k calls) as [h | v]; [|apply onError_trace].
  destruct (waitForUserOperationReceipt k h) as [rc | e].
  - destruct (hashOfReceipt rc) as [tx|]; [|apply onError_trace].
    destruct (truthy tx); [discriminate | apply onError_trace].
  - destruct (isEncodingError e); [discriminate | apply onError_trace].
Qed.

(** A payment that got past both validations does not end with the
    invalid-amount result and an empty trace. *)
Lemma accepted_not_invalidAmount (k : KernelAccountClient)
    (p : PaymentParams) :
  addressRejected (to p) = false -> amountRejected (amount p) = false ->
  run k p <> (Normal (failureResult invalidAmountMessage), []).
Proof.
  intros Ha Hm Hr.
  assert (Hs : snd (run k p) = []) by now rewrite Hr.
  assert (Hf : fst (run k p) = Normal (failureResult invalidAmountMessage))
    by now rewrite Hr.
  clear Hr.
  assert (Hname : forall t,
            fst (Normal (failureResult
                           (notConfiguredMessage (currencyName (currency p)))),
                 t : list Event)
            <> Normal (failureResult invalidAmountMessage)).
  { intros t H.
    exact (proj2 (validation_messages_distinct (currencyName (currency p)))
             (@failureResult_inj _ invalidAmountMessage H)). }
  assert (Hdec : currency p = CELO \/ currency p <> CELO)
    by (destruct (currency p); (now left) || (right; discriminate)).
  destruct Hdec as [Hc | Hne].
  - rewrite (run_native k p Ha Hm Hc) in Hs.
    destruct (parseEther (amount p)) as [a | v].
    + now apply submit_trace in Hs.
    + now apply onError_trace in Hs.
  - rewrite (run_token k p Ha Hm Hne) in Hs, Hf.
    destruct (CELO_STABLE_TOKENS (currency p)) as [tokenAddress|];
      [|now apply Hname in Hf].
    destruct (negb (truthy tokenAddress)); [now apply Hname in Hf|].
    destruct (parseUnits (amount p) 18) as [a | v];
      [|now apply onError_trace in Hs].
    destruct (encodeFunctionData (to p) a) as [data | v];
      [now apply submit_trace in Hs | now apply onError_trace in Hs].
Qed.

(** C4.  The validation of the amount is [parseFloat]: an amount it
    reads as [NaN] (no number at its start) or as a value [<= 0] ends the
    payment with a validation failure and an empty trace, so that nothing
    is asked of the kernel client; the text is the invalid-amount one
    when the recipient passed the check that comes first and the
    invalid-address one otherwise.  The invalid-amount result is returned
    for these amounts only: an amount that opens with a positive number
    and goes on with other text passes the validation.  Still, every
    amount that is no plain decimal for [parseUnits] ends in a failure
    before anything is asked of the kernel client. *)
Theorem invalid_amount_rejected (k : KernelAccountClient)
    (p : PaymentParams) :
  (isNaN (parseFloat (amount p)) = true
   \/ lessOrEqualZero (parseFloat (amount p)) = true ->
   run k p =
   (Normal {| success := false;
              transactionHash := None;
              error := Some (if addressRejected (to p)
                             then invalidAddressMessage
                             else invalidAmountMessage);
              explorerUrl := None |},
    []))
  /\ (run k p =
      (Normal {| success := false;
                 transactionHash := None;
                 error := Some invalidAmountMessage;
                 explorerUrl := None |},
       []) ->
      addressRejected (to p) = false
      /\ (isNaN (parseFloat (amount p)) = true
          \/ lessOrEqualZero (parseFloat (amount p)) = true))
  /\ (isDecimalNumber (amount p) = false ->
      networkCalls (snd (run k p)) = []
      /\ exists m, fst (run k p) = Normal {| success := false;
                                             transactionHash := None;
                                             error := Some m;
                                             explorerUrl := None |}).
Proof.
  split; [|split].
  - intros H. destruct (addressRejected (to p)) eqn:Ha.
    + now apply run_addressRejected.
    + apply run_amountRejected; [exact Ha|]. unfold amountRejected.
      destruct H as [-> | ->]; [reflexivity | apply orb_true_r].
  - intros Hr. destruct (addressRejected (to p)) eqn:Ha.
    + exfalso. rewrite (run_addressRejected k p Ha) in Hr.
      exact (proj1 (validation_messages_distinct [])
               (@failureResult_inj invalidAddressMessage
                  invalidAmountMessage (f_equal fst Hr))).
    + split; [reflexivity|].
      destruct (amountRejected (amount p)) eqn:Hm.
      * unfold amountRejected in Hm. now apply orb_true_iff in Hm.
      * exfalso. now apply (accepted_not_invalidAmount k p Ha Hm).
  - intros Hd.
    destruct (@unconvertible_amount_fails k p
                (ErrorObject (InvalidDecimalNumberError (amount p))))
      as (m & t & Hr & Hn).
    + unfold parseUnits. now rewrite Hd.
    + rewrite Hr. split; [exact Hn | now exists m].
Qed.

(** C5.  In a token payment (any currency but CELO) whatever is passed
    to [sendUserOperation] is one call object: its target is the address
    the table gives for the currency, its native value is 0, and its data
    is [encodeFunctionData] of [transfer] on the recipient and on
    [parseUnits(amount, 18)]: the selector, then the two arguments, which
    read back from it.  The amount "10.5" is encoded as
    10500000000000000000, and a plain decimal [ip.fp] with at most 18
    fraction digits (or a whole number [ip]) as that number times 10^18.
    Such a call is passed as soon as the validations, the table, the
    conversion and the encoding succeed. *)
Theorem token_call_object (k : KernelAccountClient) (p : PaymentParams) :
  currency p <> CELO ->
  (forall calls,
     In (SendUserOperation calls) (snd (run k p)) ->
     exists tokenAddress amountInWei data,
       CELO_STABLE_TOKENS (currency p) = Some tokenAddress
       /\ parseUnits (amount p) 18 = Normal amountInWei
       /\ encodeFunctionData (to p) amountInWei = Normal data
       /\ calls = [ {| call_to := tokenAddress;
                       call_value := 0%Z;
                       call_data := data |} ]
       /\ startsWith data (lit "0xa9059cbb") = true
       /\ transferRecipientOf data = toLowerCase (to p)
       /\ transferAmountOf data = amountInWei
       /\ (amount p = lit "10.5" ->
           transferAmountOf data = 10500000000000000000%Z)
       /\ (forall ip fp,
             forallb isDigit ip = true -> forallb isDigit fp = true ->
             (List.length fp <= 18)%nat -> amount p = ip ++ DOT :: fp ->
             transferAmountOf data = scaleBy18 ip fp)
       /\ (forall ip,
             forallb isDigit ip = true -> amount p = ip ->
             transferAmountOf data = scaleBy18 ip []))
  /\ (forall tokenAddress amountInWei data,
        addressRejected (to p) = false -> amountRejected (amount p) = false ->
        CELO_STABLE_TOKENS (currency p) = Some tokenAddress ->
        truthy tokenAddress = true ->
        parseUnits (amount p) 18 = Normal amountInWei ->
        encodeFunctionData (to p) amountInWei = Normal data ->
        networkCalls (snd (run k p)) =
        SendUserOperation [ {| call_to := tokenAddress;
                               call_value := 0%Z;
                               call_data := data |} ]
        :: match sendUserOperation k [ {| call_to := tokenAddress;
                                          call_value := 0%Z;
                                          call_data := data |} ] with
           | Normal h => [WaitForUserOperationReceipt h]
           | Throw _ => []
           end).
Proof.
  intros Hc. split.
  - intros calls Hin.
    destruct (run_sent k p calls Hin) as (c & -> & He & _).
    destruct He as [a Hc' _ | tokenAddress a data _ Ht _ Hp Hd];
      [contradiction|].
    exists tokenAddress, a, data.
    pose proof (transferAmountOf_encoded _ _ Hd) as Hamt.
    repeat split; try assumption.
    + now apply (encoded_selector _ _ Hd).
    + now apply (transferRecipientOf_encoded _ _ Hd).
    + intros Heq. rewrite Hamt. rewrite Heq in Hp.
      assert (Hv : parseUnits (lit "10.5") 18 = Normal 10500000000000000000%Z)
        by (vm_compute; reflexivity).
      rewrite Hv in Hp. now injection Hp as <-.
    + intros ip fp Hip Hfp Hlen Heq. rewrite Hamt. rewrite Heq in Hp.
      rewrite (parseUnits_dotted ip fp Hip Hfp Hlen) in Hp.
      now injection Hp as <-.
    + intros ip Hip Heq. rewrite Hamt. rewrite Heq in Hp.
      rewrite (parseUnits_integer ip Hip) in Hp.
      now injection Hp as <-.
  - intros tokenAddress a data Ha Hm Ht Htr Hp Hd.
    rewrite (run_submit k Ha Hm (TokenEnvelope p Hc Ht Htr Hp Hd)).
    apply submit_networkCalls.
Qed.

(** C6.  In a CELO payment whatever is passed to [sendUserOperation] is
    one call object: its target is the recipient, its native value is
    [parseEther(amount)] and its data is the empty "0x".  The amount
    "1.0" gives 1000000000000000000, and a plain decimal [ip.fp] with at
    most 18 fraction digits (or a whole number [ip]) that number times
    10^18.  Such a call is
    passed as soon as the recipient and the amount pass the validations
    and the conversion succeeds. *)
Theorem native_call_object (k : KernelAccountClient) (p : PaymentParams) :
  currency p = CELO ->
  (forall calls,
     In (SendUserOperation calls) (snd (run k p)) ->
     exists amountInWei,
       parseEther (amount p) = Normal amountInWei
       /\ calls = [ {| call_to := to p;
                       call_value := amountInWei;
                       call_data := lit "0x" |} ]
       /\ (amount p = lit "1.0" -> amountInWei = 1000000000000000000%Z)
       /\ (forall ip fp,
             forallb isDigit ip = true -> forallb isDigit fp = true ->
             (List.length fp <= 18)%nat -> amount p = ip ++ DOT :: fp ->
             amountInWei = scaleBy18 ip fp)
       /\ (forall ip,
             forallb isDigit ip = true -> amount p = ip ->
             amountInWei = scaleBy18 ip []))
  /\ (forall amountInWei,
        addressRejected (to p) = false -> amountRejected (amount p) = false ->
        parseEther (amount p) = Normal amountInWei ->
        networkCalls (snd (run k p)) =
        SendUserOperation [ {| call_to := to p;
                               call_value := amountInWei;
                               call_data := lit "0x" |} ]
        :: match sendUserOperation k [ {| call_to := to p;
                                          call_value := amountInWei;
                                          call_data := lit "0x" |} ] with
           | Normal h => [WaitForUserOperationReceipt h]
           | Throw _ => []
           end).
Proof.
  intros Hc. split.
  - intros calls Hin.
    destruct (run_sent k p calls Hin) as (c & -> & He & _).
    destruct He as [a _ Hp | tokenAddress a data Hc' _ _ _ _];
      [|contradiction].
    exists a. repeat split; try assumption.
    + intros Heq. rewrite Heq in Hp.
      assert (Hv : parseEther (lit "1.0") = Normal 1000000000000000000%Z)
        by (vm_compute; reflexivity).
      rewrite Hv in Hp. now injection Hp as <-.
    + intros ip fp Hip Hfp Hlen Heq. rewrite Heq in Hp.
      unfold parseEther in Hp.
      rewrite (parseUnits_dotted ip fp Hip Hfp Hlen) in Hp.
      now injection Hp as <-.
    + intros ip Hip Heq. rewrite Heq in Hp. unfold parseEther in Hp.
      rewrite (parseUnits_integer ip Hip) in Hp.
      now injection Hp as <-.
  - intros a Ha Hm Hp.
    rewrite (run_submit k Ha Hm (NativeEnvelope p Hc Hp)).
    apply submit_networkCalls.
Qed.

(** C7, as the code has it.  When the wait for the receipt fails with an
    [Error] that is not the encoding error, the result is a failure whose
    text depends on the message in lower case.  If it has "fund",
    "balance" or "insufficient" in it, as every message containing
    "insufficient funds" does, the text is the message followed by the
    funding guidance.  Only if it has none of the three, and has
    "monthly", "sponsorship limit", "billing plan" or "upgrade your
    billing", as a message containing "billing plan" does, the text is
    the sponsorship guidance, which differs from every funding
    guidance. *)
Theorem confirmation_failure_guidance (k : KernelAccountClient)
    (p : PaymentParams) (calls : list Call) (h msg : jsstring) :
  In (SendUserOperation calls) (snd (run k p)) ->
  sendUserOperation k calls = Normal h ->
  waitForUserOperationReceipt k h = Throw (ErrorObject msg) ->
  isEncodingError (ErrorObject msg) = false ->
  let funding :=
    Normal {| success := false;
              transactionHash := None;
              error := Some (fundingGuidance msg);
              explorerUrl := None |} in
  let sponsorship :=
    Normal {| success := false;
              transactionHash := None;
              error := Some sponsorshipGuidance;
              explorerUrl := None |} in
  (mentionsFunding msg = true -> fst (run k p) = funding)
  /\ (contains msg INSUFFICIENT_FUNDS -> fst (run k p) = funding)
  /\ (mentionsFunding msg = false -> mentionsSponsorship msg = true ->
      fst (run k p) = sponsorship)
  /\ (mentionsFunding msg = false -> contains msg BILLING_PLAN ->
      fst (run k p) = sponsorship)
  /\ (forall m, sponsorshipGuidance <> fundingGuidance m).
Proof.
  intros Hin Hs Hw He funding sponsorship. subst funding sponsorship.
  rewrite (hard_failure k p calls Hin Hs Hw He). cbn [fst].
  unfold guidanceFor, errorMessageOf.
  assert (Hfunds : contains msg INSUFFICIENT_FUNDS -> mentionsFunding msg = true).
  { intros Hmsg. unfold mentionsFunding.
    destruct keywords_lower_case as (_ & _ & Hf).
    rewrite (includes_toLowerCase Hf
               (contains_trans Hmsg insufficient_funds_has_fund)).
    reflexivity. }
  assert (Hplan : contains msg BILLING_PLAN -> mentionsSponsorship msg = true).
  { intros Hmsg. unfold mentionsSponsorship.
    destruct keywords_lower_case as (_ & Hb & _).
    rewrite (includes_toLowerCase Hb Hmsg). now rewrite !orb_true_r. }
  repeat split.
  - now intros ->.
  - intros Hmsg. now rewrite (Hfunds Hmsg).
  - now intros -> ->.
  - intros Hno Hmsg. now rewrite Hno, (Hplan Hmsg).
  - apply guidance_distinct.
Qed.

(** C8.  An [Error] whose message contains "missing continuation byte" or
    "strings/5.7.0" is an encoding error for [isEncodingError], and when
    the wait for the receipt of a submitted operation fails with it the
    payment returns [success = true] with the operation identifier as
    [transactionHash]. *)
Theorem other_encoding_signatures_downgraded (msg : jsstring) :
  contains msg MISSING_CONTINUATION_BYTE \/ contains msg STRINGS_5_7_0 ->
  isEncodingError (ErrorObject msg) = true
  /\ forall (k : KernelAccountClient) (p : PaymentParams)
            (calls : list Call) (h : jsstring),
       In (SendUserOperation calls) (snd (run k p)) ->
       sendUserOperation k calls = Normal h ->
       waitForUserOperationReceipt k h = Throw (ErrorObject msg) ->
       fst (run k p) =
       Normal {| success := true;
                 transactionHash := Some h;
                 error := None;
                 explorerUrl := Some (getCeloExplorerUrl h txKind) |}.
Proof.
  intros Hmsg.
  assert (He : isEncodingError (ErrorObject msg) = true).
  { rewrite isEncodingError_message.
    destruct Hmsg as [H | H]; apply includes_contains in H; rewrite H;
      now rewrite ?orb_true_r. }
  split; [exact He|].
  intros k p calls h Hin Hs Hw.
  now rewrite (benign_downgrade k p calls Hin Hs Hw He).
Qed.

(** C9.  When the wait resolves and the receipt holds no transaction hash
    (none at all, or an empty one), the payment returns [success = false]
    with the text of the error thrown for it, which is not empty.  And a
    result with [success = true] always has a [transactionHash]. *)
Theorem receipt_without_hash_fails (k : KernelAccountClient)
    (p : PaymentParams) :
  (forall calls h rc,
     In (SendUserOperation calls) (snd (run k p)) ->
     sendUserOperation k calls = Normal h ->
     waitForUserOperationReceipt k h = Normal rc ->
     notSet (hashOfReceipt rc) = true ->
     fst (run k p) = Normal {| success := false;
                               transactionHash := None;
                               error := Some missingHashMessage;
                               explorerUrl := None |}
     /\ truthy missingHashMessage = true)
  /\ (forall r t,
        run k p = (Normal r, t) -> success r = true ->
        exists tx, transactionHash r = Some tx).
Proof.
  split.
  - intros calls h rc Hin Hs Hw Hno.
    split; [|exact missingHash_not_empty].
    destruct (run_sent k p calls Hin) as (c & -> & _ & _ & _ & ->).
    rewrite submit_eq, Hs, Hw.
    assert (Hfail : fst (onError (ErrorObject missingHashMessage)
                           [SendUserOperation [c]; WaitForUserOperationReceipt h])
                    = Normal (failureResult missingHashMessage)).
    { now rewrite onError_eq, missingHash_not_encoding, missingHash_guidance. }
    destruct (hashOfReceipt rc) as [tx|]; [|exact Hfail].
    cbn [notSet] in Hno. apply negb_true_iff in Hno. rewrite Hno. exact Hfail.
  - intros r t Hr Hsucc.
    destruct (run_returns k p) as (r' & t' & Hr' & Hshape).
    rewrite Hr in Hr'. injection Hr' as <- <-.
    destruct Hshape as [[m ->] | (calls & h & _ & _ & [(e & _ & _ & ->)
                                                      | (rc & tx & _ & _ & _ & ->)])].
    + discriminate.
    + now exists h.
    + now exists tx.
Qed.

End PaymentClaims.

(* ================================================================== *)
(** * The properties of the EOA functions *)
(* ================================================================== *)

Section WalletFacts.

Lemma walletClientType_eqb_eq (a b : WalletClientType) :
  walletClientType_eqb a b = true <-> a = b.
Proof. destruct a, b; simpl; split; congruence. Qed.

(** [find] returns the first wallet of the type asked for. *)
Lemma find_first (t : WalletClientType) (before after : list WaaPWallet)
    (w : WaaPWallet) :
  (forall x, In x before -> walletClientType x <> t) ->
  walletClientType w = t ->
  find (isOfType t) (before ++ w :: after) = Some w.
Proof.
  intros Hbefore Hw. induction before as [|x before IH]; cbn [app find].
  - unfold isOfType. rewrite Hw.
    now rewrite (proj2 (walletClientType_eqb_eq t t) eq_refl).
  - destruct (isOfType t x) eqn:Hx.
    + apply walletClientType_eqb_eq in Hx.
      now destruct (Hbefore x (or_introl eq_refl)).
    + apply IH. intros y Hy. apply Hbefore. now right.
Qed.

Lemma find_absent (t : WalletClientType) (wallets : list WaaPWallet) :
  find (isOfType t) wallets = None <->
  forall x, In x wallets -> walletClientType x <> t.
Proof.
  split.
  - intros H x Hx Ht. apply (find_none _ _ H) in Hx.
    unfold isOfType in Hx. rewrite Ht in Hx.
    now rewrite (proj2 (walletClientType_eqb_eq t t) eq_refl) in Hx.
  - intros H. destruct (find (isOfType t) wallets) as [w|] eqn:Hf;
      [|reflexivity].
    apply find_some in Hf as [Hin Hw].
    apply walletClientType_eqb_eq in Hw. now destruct (H w Hin).
Qed.

Lemma getEOAAddress_eq (wallets : list WaaPWallet) :
  getEOAAddress wallets = addressOf (getEOAWallet wallets).
Proof.
  unfold getEOAAddress, getEOAWallet.
  destruct (find _ wallets) as [w|]; [reflexivity|].
  cbn [addressOf option_map notSet negb].
  destruct (find _ wallets) as [w|]; reflexivity.
Qed.

Lemma getEOAWallet_eq (wallets : list WaaPWallet) :
  getEOAWallet wallets =
  match find (isOfType external) wallets with
  | Some w => Some w
  | None => find (isOfType waap) wallets
  end.
Proof.
  unfold getEOAWallet. fold (isOfType external). fold (isOfType waap).
  destruct (find (isOfType external) wallets); [reflexivity|].
  destruct (find (isOfType waap) wallets); reflexivity.
Qed.

(** C10.  If the list has an external wallet, the first one is the EOA
    wallet and its address the EOA address, whatever WaaP wallets stand
    before or after it.  A WaaP wallet is returned only when the list has
    no external wallet, and then it is the first WaaP wallet.  [null] is
    returned exactly when the list has neither kind. *)
Theorem external_wallet_first (wallets : list WaaPWallet) :
  (forall before w after,
     wallets = before ++ w :: after ->
     (forall x, In x before -> walletClientType x <> external) ->
     walletClientType w = external ->
     getEOAAddress wallets = Some (hexText (address w))
     /\ getEOAWallet wallets = Some w)
  /\ (forall w,
        getEOAWallet wallets = Some w -> walletClientType w = waap ->
        forall x, In x wallets -> walletClientType x <> external)
  /\ (forall before w after,
        wallets = before ++ w :: after ->
        (forall x, In x wallets -> walletClientType x <> external) ->
        (forall x, In x before -> walletClientType x <> waap) ->
        walletClientType w = waap ->
        getEOAAddress wallets = Some (hexText (address w))
        /\ getEOAWallet wallets = Some w)
  /\ (getEOAAddress wallets = None <->
      forall x, In x wallets ->
                walletClientType x <> external /\ walletClientType x <> waap)
  /\ (getEOAWallet wallets = None <->
      forall x, In x wallets ->
                walletClientType x <> external /\ walletClientType x <> waap).
Proof.
  assert (Hnull : getEOAWallet wallets = None <->
                  forall x, In x wallets ->
                    walletClientType x <> external /\ walletClientType x <> waap).
  { rewrite getEOAWallet_eq. split.
    - intros H x Hx.
      destruct (find (isOfType external) wallets) eqn:He; [discriminate|].
      split; [now apply (proj1 (find_absent external wallets) He)
             | now apply (proj1 (find_absent waap wallets) H)].
    - intros H.
      rewrite (proj2 (find_absent external wallets) (fun x Hx => proj1 (H x Hx))).
      apply find_absent. intros x Hx. apply (H x Hx). }
  split; [|split; [|split; [|split]]].
  - intros before w after -> Hbefore Hw.
    rewrite getEOAAddress_eq, getEOAWallet_eq.
    now rewrite (@find_first external before after w Hbefore Hw).
  - intros w Hw Htype. rewrite getEOAWallet_eq in Hw.
    destruct (find (isOfType external) wallets) as [e|] eqn:He.
    + injection Hw as ->. apply find_some in He as [_ He].
      apply walletClientType_eqb_eq in He. congruence.
    + now apply find_absent.
  - intros before w after Heq Hnone Hbefore Hw.
    rewrite getEOAAddress_eq, getEOAWallet_eq.
    rewrite (proj2 (find_absent external wallets) Hnone). subst wallets.
    now rewrite (@find_first waap before after w Hbefore Hw).
  - rewrite <- Hnull, getEOAAddress_eq.
    destruct (getEOAWallet wallets); split; intros H;
      try discriminate; reflexivity.
  - exact Hnull.
Qed.

End WalletFacts.

(* ================================================================== *)
(** * More on the sponsored payment *)
(* ================================================================== *)

Section SignFacts.
Context {viem : Viem}.

Lemma noMinus_app (a b : jsstring) :
  noMinus (a ++ b) = noMinus a && noMinus b.
Proof. apply forallb_app. Qed.

Lemma noMinus_digits (s : jsstring) :
  forallb isDigit s = true -> noMinus s = true.
Proof.
  intros H. unfold noMinus. rewrite forallb_forall in *. intros c Hc.
  specialize (H c Hc). apply isDigit_range in H.
  apply negb_true_iff, N.eqb_neq. unfold MINUS. lia.
Qed.

Lemma noMinus_firstn (n : nat) (s : jsstring) :
  noMinus s = true -> noMinus (firstn n s) = true.
Proof.
  intros H. rewrite <- (firstn_skipn n s), noMinus_app in H.
  now apply andb_true_iff in H as [H _].
Qed.

Lemma noMinus_skipn (n : nat) (s : jsstring) :
  noMinus s = true -> noMinus (skipn n s) = true.
Proof.
  intros H. rewrite <- (firstn_skipn n s), noMinus_app in H.
  now apply andb_true_iff in H as [_ H].
Qed.

Lemma noMinus_slice (s : jsstring) (a b : nat) :
  noMinus s = true -> noMinus (slice s a b) = true.
Proof. intros H. unfold slice. now apply noMinus_firstn, noMinus_skipn. Qed.

Lemma noMinus_zeros (k : nat) : noMinus (repeat ZERO k) = true.
Proof. induction k as [|k IH]; [reflexivity | exact IH]. Qed.

Lemma noMinus_trim (s : jsstring) :
  noMinus s = true -> noMinus (trimTrailingZeros s) = true.
Proof.
  intros H. destruct (trimTrailingZeros_spec s) as [k Hk].
  rewrite Hk, noMinus_app in H. now apply andb_true_iff in H as [H _].
Qed.

Lemma digitsOfUint_digits (u : Decimal.uint) :
  forallb isDigit (digitsOfUint u) = true.
Proof. induction u; cbn [digitsOfUint forallb]; try rewrite IHu; reflexivity. Qed.

Lemma noMinus_bigintToString (n : Z) : noMinus (bigintToString n) = true.
Proof. apply noMinus_digits, digitsOfUint_digits. Qed.

Lemma span_parts (f : N -> bool) (s a b : jsstring) :
  span f s = (a, b) -> s = a ++ b /\ forallb f a = true.
Proof.
  revert a b; induction s as [|c s IH]; intros a b; cbn [span].
  - intros [= <- <-]. now split.
  - destruct (f c) eqn:Hc.
    + destruct (span f s) as [a' b'] eqn:Hs. intros [= <- <-].
      destruct (IH a' b' eq_refl) as [-> Ha]. split; [reflexivity|].
      cbn. now rewrite Hc, Ha.
    + intros [= <- <-]. now split.
Qed.

(** The pieces of a string with no minus in it have none. *)
Lemma noMinus_cons (c : N) (s : jsstring) :
  noMinus (c :: s) = negb (c =? MINUS)%N && noMinus s.
Proof. reflexivity. Qed.

Lemma noMinus_split (s : jsstring) :
  noMinus s = true -> forall piece, In piece (split DOT s) -> noMinus piece = true.
Proof.
  induction s as [|c s IH]; cbn [split].
  - intros _ piece [<- | []]. reflexivity.
  - rewrite noMinus_cons. intros H. apply andb_true_iff in H as [Hc Hs].
    specialize (IH Hs). destruct (c =? DOT)%N.
    + intros piece [<- | Hin]; [reflexivity | now apply IH].
    + destruct (split DOT s) as [|p ps].
      * intros piece [<- | []]. now rewrite noMinus_cons, Hc.
      * intros piece [<- | Hin].
        -- rewrite noMinus_cons, Hc. now apply (IH p (or_introl eq_refl)).
        -- apply IH. now right.
Qed.

Lemma startsWith_minus (c : N) (s : jsstring) :
  startsWith (c :: s) (lit "-") = (c =? MINUS)%N.
Proof.
  change (lit "-") with [MINUS]. cbn [startsWith]. apply andb_true_r.
Qed.

(** A string that [parseUnits] accepts and that does not open with a
    minus has none. *)
Lemma accepted_noMinus (s : jsstring) :
  isDecimalNumber s = true -> startsWith s (lit "-") = false ->
  noMinus s = true.
Proof.
  unfold isDecimalNumber. intros Hd Hs.
  assert (Ho : optionalMinus s = s).
  { destruct s as [|c s]; [reflexivity|].
    rewrite startsWith_minus in Hs. unfold optionalMinus. now rewrite Hs. }
  rewrite Ho in Hd.
  destruct (span isDigit s) as [ds r1] eqn:Hspan.
  apply span_parts in Hspan as [-> Hds].
  rewrite noMinus_app, (noMinus_digits ds Hds). cbn [andb].
  destruct r1 as [|c r]; [reflexivity|].
  destruct (c =? DOT)%N eqn:Hc.
  - apply N.eqb_eq in Hc. subst c. rewrite noMinus_cons.
    now rewrite (noMinus_digits r Hd).
  - now apply noMinus_digits.
Qed.

Lemma first_piece_sign (s : jsstring) :
  startsWith (nth 0 (split DOT s) []) (lit "-") = startsWith s (lit "-").
Proof.
  destruct s as [|c s]; [reflexivity|]. cbn [split].
  destruct (c =? DOT)%N eqn:Hc.
  - apply N.eqb_eq in Hc. subst c. reflexivity.
  - destruct (split DOT s); cbn [nth]; now rewrite !startsWith_minus.
Qed.

Lemma BigInt_noMinus (s : jsstring) : noMinus s = true -> (0 <= BigInt s)%Z.
Proof.
  destruct s as [|c s]; [cbn; lia|]. rewrite noMinus_cons. intros H.
  apply andb_true_iff in H as [Hc _]. apply negb_true_iff in Hc.
  unfold BigInt. rewrite Hc. lia.
Qed.

(** [parseUnits] gives a negative number only for a string that opens
    with a minus. *)
Lemma parseUnits_sign (s : jsstring) (decimals : nat) (v : Z) :
  startsWith s (lit "-") = false ->
  parseUnits s decimals = Normal v -> (0 <= v)%Z.
Proof.
  intros Hs. unfold parseUnits.
  destruct (isDecimalNumber s) eqn:Hd; cbn [negb]; [|discriminate].
  pose proof (noMinus_split s (accepted_noMinus s Hd Hs)) as Hpieces.
  rewrite first_piece_sign, Hs.
  assert (Hi : noMinus (nth 0 (split DOT s) []) = true).
  { destruct (split DOT s) as [|p0 ps]; [reflexivity|].
    apply Hpieces. now left. }
  assert (Hf : noMinus (trimTrailingZeros
                          match nth_error (split DOT s) 1 with
                          | Some f => f
                          | None => lit "0"
                          end) = true).
  { apply noMinus_trim.
    destruct (nth_error (split DOT s) 1) as [f|] eqn:Hn; [|reflexivity].
    apply Hpieces. now apply (nth_error_In _ _ Hn). }
  set (integer1 := nth 0 (split DOT s) []) in *.
  set (fraction1 := trimTrailingZeros _) in *.
  assert (Hgoal : forall integer2 fraction2,
             noMinus integer2 = true -> noMinus fraction2 = true ->
             Normal (BigInt ([] ++ integer2 ++ fraction2)) = Normal v ->
             (0 <= v)%Z).
  { intros i f Hi' Hf' [= <-]. apply BigInt_noMinus.
    cbn [app]. now rewrite noMinus_app, Hi', Hf'. }
  destruct (decimals =? 0)%nat.
  - apply Hgoal; [|reflexivity].
    destruct (truthy fraction1 && _); [apply noMinus_bigintToString | exact Hi].
  - destruct (decimals <? List.length fraction1)%nat.
    + set (fraction' := if (9 <? _)%N then _ else _).
      assert (Hf' : noMinus fraction' = true).
      { subst fraction'. destruct (9 <? _)%N.
        - unfold padStart0.
          now rewrite !noMinus_app, noMinus_zeros, noMinus_bigintToString.
        - rewrite noMinus_app, noMinus_bigintToString.
          now rewrite (noMinus_slice _ _ _ Hf). }
      destruct (decimals <? List.length fraction')%nat; apply Hgoal.
      * apply noMinus_bigintToString.
      * now apply noMinus_slice, noMinus_skipn.
      * exact Hi.
      * now apply noMinus_slice.
    + apply Hgoal; [exact Hi|].
      unfold padEnd0. now rewrite noMinus_app, Hf, noMinus_zeros.
Qed.

(** An amount that opens with a minus never passes the validation. *)
Lemma minus_amount_rejected (r : jsstring) :
  amountRejected (MINUS :: r) = true.
Proof.
  unfold amountRejected, parseFloat.
  change (dropWhile isWhiteSpace (MINUS :: r)) with (MINUS :: r).
  change (readSign (MINUS :: r)) with (true, r). cbv beta iota zeta.
  destruct (startsWith r (lit "Infinity")); [reflexivity|].
  destruct (span isDigit r) as [ip r1].
  destruct (match r1 with
            | [] => ([], r1)
            | c :: r0 => if (c =? DOT)%N then span isDigit r0 else ([], r1)
            end) as [fp r2].
  destruct (ip ++ fp); reflexivity.
Qed.

Lemma accepted_amount_sign (s : jsstring) :
  amountRejected s = false -> startsWith s (lit "-") = false.
Proof.
  intros H. destruct s as [|c s]; [reflexivity|].
  rewrite startsWith_minus.
  destruct (N.eqb_spec c MINUS) as [->|]; [|reflexivity].
  now rewrite minus_amount_rejected in H.
Qed.

End SignFacts.

Section MorePaymentFacts.
Context {viem : Viem} {celo : Celo}.

Lemma unknownError_guidance (t : bool) (s : jsstring) :
  guidanceFor (NonError t s) = unknownErrorMessage.
Proof.
  unfold guidanceFor, errorMessageOf.
  assert (Hf : mentionsFunding unknownErrorMessage = false)
    by (vm_compute; reflexivity).
  assert (Hs : mentionsSponsorship unknownErrorMessage = false)
    by (vm_compute; reflexivity).
  now rewrite Hf, Hs.
Qed.

(** A rejected submission goes to the outer [catch]. *)
Lemma submission_rejected (k : KernelAccountClient)
    (p : PaymentParams) (calls : list Call) (v : JsValue) :
  In (SendUserOperation calls) (snd (run k p)) ->
  sendUserOperation k calls = Throw v ->
  fst (run k p) =
  Normal {| success := false;
            transactionHash := None;
            error := Some (if isEncodingError v
                           then responseProcessingMessage
                           else guidanceFor v);
            explorerUrl := None |}
  /\ networkCalls (snd (run k p)) = [SendUserOperation calls].
Proof.
  intros Hin Hs.
  destruct (run_sent k p calls Hin) as (c & -> & _ & _ & _ & Hr).
  split.
  - rewrite Hr, submit_eq, Hs, onError_eq.
    now destruct (isEncodingError v).
  - now rewrite Hr, submit_networkCalls, Hs.
Qed.

(** X7.  When the operation was submitted under the identifier [h] and
    the wait resolves with a receipt holding a non-empty transaction hash
    [tx], the payment returns [success = true] with [tx] as
    [transactionHash] and the explorer link of [tx] (not of [h]); the
    kernel client was asked exactly twice and neither [console.warn] nor
    [console.error] was called. *)
Theorem settled_payment (k : KernelAccountClient) (p : PaymentParams)
    (calls : list Call) (h : jsstring) (rc : option UserOperationReceipt)
    (tx : jsstring) :
  In (SendUserOperation calls) (snd (run k p)) ->
  sendUserOperation k calls = Normal h ->
  waitForUserOperationReceipt k h = Normal rc ->
  hashOfReceipt rc = Some tx -> truthy tx = true ->
  run k p =
  (Normal {| success := true;
             transactionHash := Some tx;
             error := None;
             explorerUrl := Some (getCeloExplorerUrl tx txKind) |},
   [SendUserOperation calls; WaitForUserOperationReceipt h]).
Proof.
  intros Hin Hs Hw Hh Htx.
  destruct (run_sent k p calls Hin) as (c & -> & _ & _ & _ & ->).
  now rewrite submit_eq, Hs, Hw, Hh, Htx.
Qed.

(** X8.  One payment asks the kernel client for at most one submission
    and at most one wait, in that order: either nothing at all, or the
    submission of the one call object built from the parameters (after
    both validations passed), followed by a wait exactly when the
    submission returned an identifier, and then on that identifier.
    Nothing is ever submitted or waited for twice. *)
Theorem one_submission_then_one_wait (k : KernelAccountClient)
    (p : PaymentParams) :
  networkCalls (snd (run k p)) = []
  \/ exists call,
       Envelope p call
       /\ addressRejected (to p) = false /\ amountRejected (amount p) = false
       /\ networkCalls (snd (run k p)) =
          SendUserOperation [call]
          :: match sendUserOperation k [call] with
             | Normal h => [WaitForUserOperationReceipt h]
             | Throw _ => []
             end.
Proof.
  destruct (run_cases k p) as [[m Hr] | [[v Hr] | [c (Ha & Hm & Hc & Hr)]]].
  - left. now rewrite Hr.
  - left. rewrite Hr. destruct (onError_returns v []) as (m & e & -> & He).
    cbn. now rewrite He.
  - right. exists c. repeat split; try assumption.
    rewrite Hr. apply submit_networkCalls.
Qed.

(** X9.  A submission that is rejected always ends in a failure, and
    nothing is waited for.  The encoding error is not downgraded at this
    point: a rejection that [isEncodingError] recognises gives
    [success = false] with the text saying that the transaction was sent
    and should be verified; any other rejection gives the text made of
    its message. *)
Theorem rejected_submission_fails (k : KernelAccountClient)
    (p : PaymentParams) (calls : list Call) (v : JsValue) :
  In (SendUserOperation calls) (snd (run k p)) ->
  sendUserOperation k calls = Throw v ->
  fst (run k p) =
  Normal {| success := false;
            transactionHash := None;
            error := Some (if isEncodingError v
                           then responseProcessingMessage
                           else guidanceFor v);
            explorerUrl := None |}
  /\ networkCalls (snd (run k p)) = [SendUserOperation calls].
Proof. exact (@submission_rejected k p calls v). Qed.

(** X10.  What is thrown without being an [Error] loses its text: when
    the submission or the wait rejects with such a value (a string, an
    object, [undefined]) that is not the encoding error, the failure says
    "Error desconocido", whatever the value said; no funding or
    sponsorship guidance is ever given for it. *)
Theorem non_error_rejection_unknown (k : KernelAccountClient)
    (p : PaymentParams) (calls : list Call) (t : bool) (s : jsstring) :
  In (SendUserOperation calls) (snd (run k p)) ->
  isEncodingError (NonError t s) = false ->
  sendUserOperation k calls = Throw (NonError t s)
  \/ (exists h, sendUserOperation k calls = Normal h
                /\ waitForUserOperationReceipt k h = Throw (NonError t s)) ->
  fst (run k p) =
  Normal {| success := false;
            transactionHash := None;
            error := Some unknownErrorMessage;
            explorerUrl := None |}.
Proof.
  intros Hin He [Hs | (h & Hs & Hw)].
  - destruct (submission_rejected k p calls Hin Hs) as [-> _].
    now rewrite He, unknownError_guidance.
  - rewrite (hard_failure k p calls Hin Hs Hw He). cbn [fst].
    now rewrite unknownError_guidance.
Qed.

(** X11.  A token whose address the table does not give (no entry, or an
    empty one) ends the payment, once the recipient and the amount have
    passed their checks, with a failure that names the currency; nothing
    is converted, encoded or asked of the kernel client. *)
Theorem unconfigured_token_rejected (k : KernelAccountClient)
    (p : PaymentParams) :
  addressRejected (to p) = false -> amountRejected (amount p) = false ->
  currency p <> CELO ->
  notSet (CELO_STABLE_TOKENS (currency p)) = true ->
  run k p =
  (Normal {| success := false;
             transactionHash := None;
             error := Some (notConfiguredMessage (currencyName (currency p)));
             explorerUrl := None |},
   []).
Proof.
  intros Ha Hm Hc Hn. rewrite (run_token k p Ha Hm Hc).
  destruct (CELO_STABLE_TOKENS (currency p)) as [tokenAddress|];
    [|reflexivity].
  cbn [notSet] in Hn. now rewrite Hn.
Qed.

(** X12.  No call object is ever submitted with a negative native value:
    in a CELO payment the value is [parseEther] of an amount that passed
    the validation, which cannot open with a minus; in a token payment it
    is 0 and the encoded amount lies in the range of [uint256]. *)
Theorem call_value_never_negative (k : KernelAccountClient)
    (p : PaymentParams) (calls : list Call) (c : Call) :
  In (SendUserOperation calls) (snd (run k p)) -> In c calls ->
  (0 <= call_value c)%Z
  /\ (currency p <> CELO ->
      call_value c = 0%Z
      /\ (0 <= transferAmountOf (call_data c) <= MAX_UINT256)%Z).
Proof.
  intros Hin Hc.
  destruct (run_sent k p calls Hin) as (c' & -> & He & _ & Hm & _).
  destruct Hc as [<- | []].
  destruct He as [a Hcur Hp | tokenAddress a data Hcur _ _ _ Hd];
    cbn [call_value call_data].
  - split; [|intros H; contradiction].
    apply (parseUnits_sign (amount p) 18); [|exact Hp].
    now apply accepted_amount_sign.
  - split; [lia|]. intros _. split; [reflexivity|].
    rewrite (transferAmountOf_encoded _ _ Hd).
    now apply encodeFunctionData_normal in Hd as (_ & Hr & _).
Qed.

(** X13.  In a token payment the recipient is checked a second time, by
    the encoder: a recipient that is not an address for viem (not 40
    hexadecimal digits after "0x", or with capitals that do not match the
    checksum) never reaches the kernel client, and the payment fails. *)
Theorem token_recipient_checked_by_encoder (k : KernelAccountClient)
    (p : PaymentParams) :
  currency p <> CELO -> isAddress (to p) = false ->
  networkCalls (snd (run k p)) = []
  /\ exists m, fst (run k p) = Normal {| success := false;
                                         transactionHash := None;
                                         error := Some m;
                                         explorerUrl := None |}.
Proof.
  intros Hc Ha.
  destruct (run_cases k p) as [[m Hr] | [[v Hr] | [c (_ & _ & He & _)]]].
  - rewrite Hr. split; [reflexivity | now exists m].
  - rewrite Hr. destruct (onError_returns v []) as (m & e & -> & Hn).
    split; [cbn; now rewrite Hn | now exists m].
  - exfalso. destruct He as [a Hcur _ | tokenAddress a data _ _ _ _ Hd];
      [contradiction|].
    apply encodeFunctionData_normal in Hd as (Hd & _). congruence.
Qed.

(** X14.  The field [from] of the parameters plays no part: two payments
    that agree on [to], [amount] and [currency] run alike, with the same
    result, the same requests to the kernel client and the same warnings
    and errors on the console ([from] is written by one [console.log]
    line, which the trace does not record).  The sender is the account of
    the kernel client, whatever [from] says. *)
Theorem sender_field_ignored (k : KernelAccountClient)
    (p q : PaymentParams) :
  to p = to q -> amount p = amount q -> currency p = currency q ->
  run k p = run k q.
Proof.
  intros Ht Ha Hc. unfold run, sendPaymentWithKernel, nativeTransfer,
    tokenTransfer.
  now rewrite Ht, Ha, Hc.
Qed.

(** X15.  A failure that is neither the encoding error nor one of the
    seven keywords is reported as it came: when the wait (or the
    submission) fails with an [Error] whose message in lower case has
    none of "fund", "balance", "insufficient", "monthly", "sponsorship
    limit", "billing plan", "upgrade your billing", the [error] of the
    result is that message, unchanged. *)
Theorem plain_failure_message_kept (k : KernelAccountClient)
    (p : PaymentParams) (calls : list Call) (msg : jsstring) :
  In (SendUserOperation calls) (snd (run k p)) ->
  isEncodingError (ErrorObject msg) = false ->
  mentionsFunding msg = false -> mentionsSponsorship msg = false ->
  sendUserOperation k calls = Throw (ErrorObject msg)
  \/ (exists h, sendUserOperation k calls = Normal h
                /\ waitForUserOperationReceipt k h = Throw (ErrorObject msg)) ->
  fst (run k p) =
  Normal {| success := false;
            transactionHash := None;
            error := Some msg;
            explorerUrl := None |}.
Proof.
  intros Hin He Hf Hq Hcase.
  assert (Hg : guidanceFor (ErrorObject msg) = msg).
  { unfold guidanceFor, errorMessageOf. now rewrite Hf, Hq. }
  destruct Hcase as [Hs | (h & Hs & Hw)].
  - destruct (submission_rejected k p calls Hin Hs) as [-> _].
    now rewrite He, Hg.
  - rewrite (hard_failure k p calls Hin Hs Hw He). cbn [fst].
    now rewrite Hg.
Qed.

(** X24.  The call data of a transfer can be read back.  The encoding
    succeeds exactly for a recipient that is an address for viem and an
    amount in the range of [uint256]; it then has 138 characters, opens
    with the selector of [transfer(address,uint256)], and holds the
    recipient in lower case and the amount.  So two transfers with the
    same call data have the same amount and, up to case, the same
    recipient. *)
Theorem transfer_encoding_round_trip (recipient : jsstring) (amt : Z) :
  ((exists data, encodeFunctionData recipient amt = Normal data) <->
   isAddress recipient = true /\ (0 <= amt <= MAX_UINT256)%Z)
  /\ (forall data,
        encodeFunctionData recipient amt = Normal data ->
        List.length data = 138%nat
        /\ startsWith data (lit "0xa9059cbb") = true
        /\ transferRecipientOf data = toLowerCase recipient
        /\ transferAmountOf data = amt
        /\ forall recipient' amt',
             encodeFunctionData recipient' amt' = Normal data ->
             amt' = amt /\ toLowerCase recipient' = toLowerCase recipient).
Proof.
  split.
  - split.
    + intros [data Hd]. now apply encodeFunctionData_normal in Hd as (? & ? & _).
    + intros [Ha Hr]. unfold encodeFunctionData. rewrite Ha. cbn [negb].
      destruct (Z.ltb_spec MAX_UINT256 amt); [lia|].
      destruct (Z.ltb_spec amt 0); [lia|]. cbn [orb]. eauto.
  - intros data Hd. split; [|split; [|split; [|split]]].
    + eapply encodeFunctionData_length. exact Hd.
    + eapply encoded_selector. exact Hd.
    + eapply transferRecipientOf_encoded. exact Hd.
    + eapply transferAmountOf_encoded. exact Hd.
    + intros recipient' amt' Hd'. split.
      * rewrite <- (@transferAmountOf_encoded _ _ _ _ Hd).
        symmetry. apply (@transferAmountOf_encoded _ _ _ _ Hd').
      * rewrite <- (@transferRecipientOf_encoded _ _ _ _ Hd).
        symmetry. apply (@transferRecipientOf_encoded _ _ _ _ Hd').
Qed.

(** X25.  An amount that passes the validation without being a plain
    decimal for [parseUnits] (an exponent as in "1e3", a sign, a space
    before the number, text after it) fails before anything is asked of
    the kernel client.  In a CELO payment, and in a token payment whose
    token is configured, the text of the failure is what the outer
    [catch] makes of the error of viem. *)
Theorem non_decimal_amount_fails (k : KernelAccountClient)
    (p : PaymentParams) :
  isDecimalNumber (amount p) = false ->
  networkCalls (snd (run k p)) = []
  /\ (exists m, fst (run k p) = Normal {| success := false;
                                          transactionHash := None;
                                          error := Some m;
                                          explorerUrl := None |})
  /\ (addressRejected (to p) = false -> amountRejected (amount p) = false ->
      currency p = CELO \/ notSet (CELO_STABLE_TOKENS (currency p)) = false ->
      run k p = onError (ErrorObject (InvalidDecimalNumberError (amount p))) []).
Proof.
  intros Hd.
  assert (Hp : parseUnits (amount p) 18
               = Throw (ErrorObject (InvalidDecimalNumberError (amount p)))).
  { unfold parseUnits. now rewrite Hd. }
  split; [|split].
  - destruct (run_cases k p) as [[m Hr] | [[v Hr] | [c (_ & _ & He & _)]]].
    + now rewrite Hr.
    + rewrite Hr. destruct (onError_returns v []) as (m & e & -> & Hn).
      cbn. now rewrite Hn.
    + exfalso. destruct He as [a _ Hp' | tokenAddress a data _ _ _ Hp' _];
        [unfold parseEther in Hp'|]; congruence.
  - destruct (run_cases k p) as [[m Hr] | [[v Hr] | [c (_ & _ & He & _)]]].
    + rewrite Hr. now exists m.
    + rewrite Hr. destruct (onError_returns v []) as (m & e & -> & _).
      now exists m.
    + exfalso. destruct He as [a _ Hp' | tokenAddress a data _ _ _ Hp' _];
        [unfold parseEther in Hp'|]; congruence.
  - intros Ha Hm [Hc | Hn].
    + rewrite (run_native k p Ha Hm Hc). unfold parseEther. now rewrite Hp.
    + destruct (currency p) eqn:Hc.
      1: { rewrite (run_native k p Ha Hm Hc). unfold parseEther.
           now rewrite Hp. }
      all: assert (Hne : currency p <> CELO) by (rewrite Hc; discriminate).
      all: rewrite (run_token k p Ha Hm Hne), Hc.
      all: rewrite <- Hc in *.
      all: destruct (CELO_STABLE_TOKENS (currency p)) as [tokenAddress|];
        [|discriminate].
      all: cbn [notSet] in Hn; apply negb_false_iff in Hn; rewrite Hn.
      all: cbn [negb]; now rewrite Hp.
Qed.

End MorePaymentFacts.

(* ================================================================== *)
(** * The payments that go through the wallet *)
(* ================================================================== *)

Section NegativeAmounts.
Context {viem : Viem}.

(** [parseUnits] on a plain decimal with a minus before it: the opposite
    of the amount, times 10^18. *)
Lemma parseUnits_negative_dotted (ip fp : jsstring) :
  forallb isDigit ip = true -> forallb isDigit fp = true ->
  (List.length fp <= 18)%nat ->
  parseUnits (MINUS :: ip ++ DOT :: fp) 18 = Normal (- scaleBy18 ip fp)%Z.
Proof.
  intros Hip Hfp Hlen. unfold parseUnits.
  assert (Hd : isDecimalNumber (MINUS :: ip ++ DOT :: fp) = true).
  { unfold isDecimalNumber.
    change (optionalMinus (MINUS :: ip ++ DOT :: fp)) with (ip ++ DOT :: fp).
    rewrite (span_digits_stop ip fp DOT Hip eq_refl).
    now rewrite N.eqb_refl. }
  rewrite Hd. cbn [negb].
  change (MINUS :: ip ++ DOT :: fp) with ((MINUS :: ip) ++ DOT :: fp).
  rewrite (split_at_separator DOT (MINUS :: ip) fp)
    by (cbn [forallb]; now rewrite (digits_no_dot ip Hip)).
  rewrite (split_no_separator DOT fp (digits_no_dot fp Hfp)).
  cbn [nth nth_error]. rewrite startsWith_minus, N.eqb_refl.
  cbn [skipn].
  destruct (trimTrailingZeros_spec fp) as [k Hk].
  pose proof (trimTrailingZeros_digits fp Hfp) as Hf.
  set (f := trimTrailingZeros fp) in *.
  assert (Hflen : (List.length f + k <= 18)%nat).
  { rewrite Hk, length_app, repeat_length in Hlen. exact Hlen. }
  change (18 =? 0)%nat with false. cbv iota.
  replace (18 <? List.length f)%nat with false
    by (symmetry; apply Nat.ltb_ge; lia).
  f_equal. change (lit "-" ++ ip ++ padEnd0 f 18)
    with (MINUS :: ip ++ padEnd0 f 18).
  unfold BigInt. rewrite N.eqb_refl. f_equal.
  assert (Hdig : forallb isDigit (ip ++ padEnd0 f 18) = true).
  { unfold padEnd0. rewrite !forallb_app, Hip, Hf. cbn [andb].
    apply forallb_forall. intros c Hc. apply repeat_spec in Hc. now subst c. }
  rewrite <- (BigInt_digits _ Hdig).
  change (ip ++ padEnd0 f 18) with ([] ++ ip ++ padEnd0 f 18).
  rewrite (BigInt_padded ip f Hip Hf) by lia.
  unfold scaleBy18. f_equal. clearbody f. rewrite Hk.
  rewrite digitsValue_app, digitsValue_zeros, length_app, repeat_length.
  rewrite N.add_0_r, N2Z.inj_mul, N2Z.inj_pow, nat_N_Z.
  change (Z.of_N 10) with 10%Z. rewrite <- Z.mul_assoc, <- Z.pow_add_r by lia.
  do 2 f_equal. lia.
Qed.

End NegativeAmounts.

Section WalletPaymentFacts.
Context {viem : Viem} {celo : Celo} {browser : Browser}.

Lemma createPrivyWalletClient_eq (wallet : WaaPWallet)
    (allWallets : option (list WaaPWallet)) (allowEOA : bool) :
  createPrivyWalletClient wallet allWallets allowEOA =
  match window_waap with
  | None => Throw (ErrorObject providerMissingMessage)
  | Some waapProvider =>
    Normal {| client_account :=
                hexText (address (targetWalletOf wallet allWallets));
              client_transport := waapProvider |}
  end.
Proof.
  unfold createPrivyWalletClient, targetWalletOf, createWalletClient.
  destruct window_waap; [|reflexivity].
  destruct allWallets as [[|first others]|]; reflexivity.
Qed.

(** What the [catch] of [sendCELOPayment] does. *)
Lemma sendCELOPayment_eq (wallet : WaaPWallet) (params : PaymentParams)
    (allWallets : option (list WaaPWallet)) :
  let caught v t :=
    (Normal (failureResult (directMessage v)),
     t ++ [WalletConsoleError [str paymentErrorLabel; v]]) in
  let account := hexText (address (targetWalletOf wallet allWallets)) in
  sendCELOPayment wallet params allWallets [] =
  match window_waap with
  | None => caught (ErrorObject providerMissingMessage) []
  | Some waapProvider =>
    match parseUnits (amount params) 18 with
    | Throw v => caught v []
    | Normal amountInWei =>
      let request := {| tx_to := Some (to params);
                        tx_value := Some amountInWei;
                        tx_data := None |} in
      match provider_sendTransaction waapProvider account request with
      | Throw v => caught v [SendTransaction account request]
      | Normal hash =>
        (Normal (successResult hash), [SendTransaction account request])
      end
    end
  end.
Proof.
  cbv zeta. unfold sendCELOPayment, actTry, actBind, actPure, actEmit, actRet,
    failureResult, successResult, directMessage.
  rewrite createPrivyWalletClient_eq.
  destruct window_waap as [waapProvider|]; [|reflexivity].
  destruct (parseUnits (amount params) 18) as [amountInWei|v]; [|reflexivity].
  unfold callSendTransaction. cbn [client_transport client_account app].
  destruct (provider_sendTransaction waapProvider _ _); reflexivity.
Qed.

Lemma sendStablecoinPayment_eq (wallet : WaaPWallet) (params : PaymentParams) :
  let caught v t := (Normal (failureResult (directMessage v)), t) in
  let account := hexText (address wallet) in
  sendStablecoinPayment wallet params [] =
  match window_waap with
  | None => caught (ErrorObject providerMissingMessage) []
  | Some waapProvider =>
    match parseUnits (amount params) 18 with
    | Throw v => caught v []
    | Normal amountInWei =>
      match encodeFunctionData (to params) amountInWei with
      | Throw v => caught v []
      | Normal data =>
        let request :=
          {| tx_to := CELO_STABLE_TOKENS (stablecoinOf (currency params));
             tx_value := None;
             tx_data := Some data |} in
        match provider_sendTransaction waapProvider account request with
        | Throw v => caught v [SendTransaction account request]
        | Normal hash =>
          (Normal (successResult hash), [SendTransaction account request])
        end
      end
    end
  end.
Proof.
  cbv zeta. unfold sendStablecoinPayment, actTry, actBind, actPure, actRet,
    failureResult, successResult, directMessage.
  rewrite createPrivyWalletClient_eq.
  destruct window_waap as [waapProvider|]; [|reflexivity].
  destruct (parseUnits (amount params) 18) as [amountInWei|v]; [|reflexivity].
  destruct (encodeFunctionData (to params) amountInWei) as [data|v];
    [|reflexivity].
  unfold callSendTransaction, targetWalletOf.
  cbn [client_transport client_account app].
  assert (Ht : match currency params with
               | cUSD => CELO_STABLE_TOKENS cUSD
               | _ => CELO_STABLE_TOKENS cEUR
               end = CELO_STABLE_TOKENS (stablecoinOf (currency params)))
    by (now destruct (currency params)).
  rewrite Ht.
  destruct (provider_sendTransaction waapProvider _ _); reflexivity.
Qed.

(** X16.  [createPrivyWalletClient] throws exactly when [window.waap] is
    not there.  Otherwise the account of the client is the address of the
    primary wallet of [allWallets] (a WaaP wallet before an external one)
    when that list is given and has one, and of the [wallet] argument
    otherwise; the flag [allowEOA] changes nothing. *)
Theorem wallet_client_account (wallet : WaaPWallet)
    (allWallets : option (list WaaPWallet)) (allowEOA : bool) :
  (window_waap = None <->
   createPrivyWalletClient wallet allWallets allowEOA
   = Throw (ErrorObject providerMissingMessage))
  /\ (forall waapProvider,
        window_waap = Some waapProvider ->
        createPrivyWalletClient wallet allWallets allowEOA =
        Normal {| client_account :=
                    hexText (address
                      match allWallets with
                      | Some ws =>
                        match getPrimaryWallet ws with
                        | Some primaryWallet => primaryWallet
                        | None => wallet
                        end
                      | None => wallet
                      end);
                  client_transport := waapProvider |})
  /\ createPrivyWalletClient wallet allWallets allowEOA
     = createPrivyWalletClient wallet allWallets (negb allowEOA).
Proof.
  rewrite !createPrivyWalletClient_eq. split; [|split].
  - destruct window_waap; split; try discriminate; reflexivity.
  - now intros waapProvider ->.
  - reflexivity.
Qed.

(** X17.  [sendCELOPayment] never throws.  It returns [success = true]
    only after exactly one transaction was handed to the wallet client
    and a hash came back, which is the [transactionHash] of the result;
    in every other case it returns [success = false] with an [error]
    text and no hash. *)
Theorem sendCELOPayment_always_returns (wallet : WaaPWallet)
    (params : PaymentParams) (allWallets : option (list WaaPWallet)) :
  exists r t,
    sendCELOPayment wallet params allWallets [] = (Normal r, t)
    /\ ((success r = false /\ transactionHash r = None
         /\ exists m, error r = Some m)
        \/ (exists waapProvider account request hash,
              window_waap = Some waapProvider
              /\ provider_sendTransaction waapProvider account request
                 = Normal hash
              /\ t = [SendTransaction account request]
              /\ r = {| success := true;
                        transactionHash := Some hash;
                        error := None;
                        explorerUrl :=
                          Some (getCeloExplorerUrl hash txKind) |})).
Proof.
  rewrite sendCELOPayment_eq.
  destruct window_waap as [waapProvider|].
  2: { do 2 eexists. split; [reflexivity|]. left. cbn. eauto. }
  destruct (parseUnits (amount params) 18) as [amountInWei|v].
  2: { do 2 eexists. split; [reflexivity|]. left. cbn. eauto. }
  cbv zeta.
  destruct (provider_sendTransaction waapProvider _ _) as [hash|v] eqn:Hs.
  - do 2 eexists. split; [reflexivity|]. right.
    do 4 eexists. repeat split. exact Hs.
  - do 2 eexists. split; [reflexivity|]. left. cbn. eauto.
Qed.

(** X18.  Without [window.waap] neither direct payment sends anything:
    both return [success = false] with the text that the WaaP provider is
    not available, [sendCELOPayment] after one [console.error] line and
    [sendStablecoinPayment] with an empty trace. *)
Theorem no_provider_nothing_sent (wallet : WaaPWallet)
    (params : PaymentParams) (allWallets : option (list WaaPWallet)) :
  window_waap = None ->
  sendCELOPayment wallet params allWallets [] =
  (Normal {| success := false;
             transactionHash := None;
             error := Some providerMissingMessage;
             explorerUrl := None |},
   [WalletConsoleError
      [str paymentErrorLabel; ErrorObject providerMissingMessage]])
  /\ sendStablecoinPayment wallet params [] =
     (Normal {| success := false;
                transactionHash := None;
                error := Some providerMissingMessage;
                explorerUrl := None |},
      []).
Proof.
  intros H. rewrite sendCELOPayment_eq, sendStablecoinPayment_eq, H.
  split; reflexivity.
Qed.

(** X19.  [sendCELOPayment] validates nothing: with a provider, every
    amount [parseUnits] accepts is handed to the wallet client as the
    value of a transaction to [params.to], whatever that recipient looks
    like and whatever the sign of the amount.  A plain decimal with a
    minus before it is sent as the negative number. *)
Theorem sendCELOPayment_sends_unvalidated (wallet : WaaPWallet)
    (params : PaymentParams) (allWallets : option (list WaaPWallet))
    (waapProvider : WaapProvider) (v : Z) :
  window_waap = Some waapProvider ->
  parseUnits (amount params) 18 = Normal v ->
  (exists rest,
     snd (sendCELOPayment wallet params allWallets []) =
     SendTransaction (hexText (address (targetWalletOf wallet allWallets)))
       {| tx_to := Some (to params);
          tx_value := Some v;
          tx_data := None |}
     :: rest)
  /\ (forall ip fp,
        forallb isDigit ip = true -> forallb isDigit fp = true ->
        (List.length fp <= 18)%nat ->
        amount params = MINUS :: ip ++ DOT :: fp ->
        v = (- scaleBy18 ip fp)%Z).
Proof.
  intros Hw Hp. split.
  - rewrite sendCELOPayment_eq, Hw, Hp. cbv zeta.
    destruct (provider_sendTransaction waapProvider _ _);
      eexists; reflexivity.
  - intros ip fp Hip Hfp Hlen Heq. rewrite Heq in Hp.
    rewrite (parseUnits_negative_dotted ip fp Hip Hfp Hlen) in Hp.
    now injection Hp as <-.
Qed.

(** X20.  [sendCELOPayment] looks neither at [currency] nor at [from]:
    two payments that agree on [to] and [amount] run alike.  Whatever the
    currency says, the native asset is what is sent. *)
Theorem sendCELOPayment_ignores_currency (wallet : WaaPWallet)
    (p q : PaymentParams) (allWallets : option (list WaaPWallet)) :
  to p = to q -> amount p = amount q ->
  sendCELOPayment wallet p allWallets [] = sendCELOPayment wallet q allWallets [].
Proof.
  intros Ht Ha. rewrite !sendCELOPayment_eq. cbv zeta. now rewrite Ht, Ha.
Qed.

(** X21.  The direct payments classify no error: when the wallet client
    rejects the transaction with an [Error], its message is the [error]
    of the result as it is, also when it is the encoding error (no
    downgrade to a success) or speaks of funds (no guidance); a rejection
    with anything else gives "Payment failed". *)
Theorem direct_payment_error_verbatim (wallet : WaaPWallet)
    (params : PaymentParams) (allWallets : option (list WaaPWallet))
    (account : jsstring) (request : TransactionRequest) (v : JsValue) :
  In (SendTransaction account request)
     (snd (sendCELOPayment wallet params allWallets [])) ->
  (forall waapProvider,
     window_waap = Some waapProvider ->
     provider_sendTransaction waapProvider account request = Throw v) ->
  fst (sendCELOPayment wallet params allWallets []) =
  Normal {| success := false;
            transactionHash := None;
            error := Some match v with
                          | ErrorObject message => message
                          | NonError _ _ => paymentFailedMessage
                          end;
            explorerUrl := None |}.
Proof.
  rewrite sendCELOPayment_eq.
  destruct window_waap as [waapProvider|]; cbv zeta.
  2: { cbn [snd app In]. intros [H | []]. discriminate. }
  destruct (parseUnits (amount params) 18) as [amountInWei|e].
  2: { cbn [snd app In]. intros [H | []]. discriminate. }
  destruct (provider_sendTransaction waapProvider _ _) as [hash|e] eqn:Hs;
    cbn [snd fst app In]; intros Hin Hv;
    assert (Hev : SendTransaction
                    (hexText (address (targetWalletOf wallet allWallets)))
                    {| tx_to := Some (to params);
                       tx_value := Some amountInWei;
                       tx_data := None |}
                  = SendTransaction account request)
      by (destruct Hin as [H | Hin]; [exact H|];
          try destruct Hin as [H | []]; try discriminate; destruct Hin);
    injection Hev as Hacc Hreq; rewrite Hacc, Hreq in Hs;
    rewrite (Hv waapProvider eq_refl) in Hs.
  - discriminate.
  - now injection Hs as ->.
Qed.

(** X22.  Whatever [sendStablecoinPayment] hands to the wallet client is
    a call of [transfer] on a token contract: the contract is the cUSD
    entry of the table when the currency is cUSD and the cEUR entry for
    every other currency; the request has no native value; its data is
    [encodeFunctionData] on the recipient and on [parseUnits(amount,
    18)]; the account is that of the [wallet] argument. *)
Theorem stablecoin_request (wallet : WaaPWallet) (params : PaymentParams)
    (account : jsstring) (request : TransactionRequest) :
  In (SendTransaction account request)
     (snd (sendStablecoinPayment wallet params [])) ->
  account = hexText (address wallet)
  /\ tx_to request = (if match currency params with
                         | cUSD => true
                         | _ => false
                         end
                      then CELO_STABLE_TOKENS cUSD
                      else CELO_STABLE_TOKENS cEUR)
  /\ tx_value request = None
  /\ exists amountInWei data,
       parseUnits (amount params) 18 = Normal amountInWei
       /\ encodeFunctionData (to params) amountInWei = Normal data
       /\ tx_data request = Some data
       /\ transferAmountOf data = amountInWei
       /\ transferRecipientOf data = toLowerCase (to params).
Proof.
  rewrite sendStablecoinPayment_eq.
  destruct window_waap as [waapProvider|]; cbv zeta; [|intros []].
  destruct (parseUnits (amount params) 18) as [amountInWei|e]; [|intros []].
  destruct (encodeFunctionData (to params) amountInWei) as [data|e] eqn:Hd;
    [|intros []].
  intros Hin.
  assert (Hev : SendTransaction (hexText (address wallet))
                  {| tx_to := CELO_STABLE_TOKENS (stablecoinOf (currency params));
                     tx_value := None;
                     tx_data := Some data |}
                = SendTransaction account request).
  { destruct (provider_sendTransaction waapProvider _ _);
      cbn [snd app In] in Hin; destruct Hin as [H | []]; exact H. }
  injection Hev as <- <-. cbn [tx_to tx_value tx_data].
  repeat split.
  - now destruct (currency params).
  - exists amountInWei, data.
    split; [reflexivity|]. split; [exact Hd|]. split; [reflexivity|]. split.
    + eapply transferAmountOf_encoded. exact Hd.
    + eapply transferRecipientOf_encoded. exact Hd.
Qed.

(** X23.  [sendStablecoinPayment] never throws, and it hands nothing to
    the wallet client when the amount is not a decimal for [parseUnits]
    or the recipient is not an address for viem: it then returns
    [success = false] with an empty trace. *)
Theorem sendStablecoinPayment_always_returns (wallet : WaaPWallet)
    (params : PaymentParams) :
  (exists r t, sendStablecoinPayment wallet params [] = (Normal r, t)
               /\ (success r = true ->
                   exists account request,
                     t = [SendTransaction account request]))
  /\ (isDecimalNumber (amount params) = false
      \/ isAddress (to params) = false ->
      exists m,
        sendStablecoinPayment wallet params [] =
        (Normal {| success := false;
                   transactionHash := None;
                   error := Some m;
                   explorerUrl := None |},
         [])).
Proof.
  rewrite sendStablecoinPayment_eq. cbv zeta. split.
  - destruct window_waap as [waapProvider|];
      [|do 2 eexists; split; [reflexivity | discriminate]].
    destruct (parseUnits (amount params) 18) as [amountInWei|e];
      [|do 2 eexists; split; [reflexivity | discriminate]].
    destruct (encodeFunctionData (to params) amountInWei) as [data|e];
      [|do 2 eexists; split; [reflexivity | discriminate]].
    destruct (provider_sendTransaction waapProvider _ _).
    + do 2 eexists. split; [reflexivity|]. intros _. eauto.
    + do 2 eexists. split; [reflexivity | discriminate].
  - intros Hbad.
    destruct window_waap as [waapProvider|]; [|eexists; reflexivity].
    destruct (parseUnits (amount params) 18) as [amountInWei|e] eqn:Hp;
      [|eexists; reflexivity].
    destruct (encodeFunctionData (to params) amountInWei) as [data|e] eqn:Hd;
      [|eexists; reflexivity].
    exfalso. destruct Hbad as [Hbad | Hbad].
    + unfold parseUnits in Hp. rewrite Hbad in Hp. discriminate.
    + apply encodeFunctionData_normal in Hd as (Hd & _). congruence.
Qed.

End WalletPaymentFacts.

(* ================================================================== *)
(** * More on the wallet selections *)
(* ================================================================== *)

Section MoreWalletFacts.

Lemma find_hasType (t : WalletClientType) (wallets : list WaaPWallet) :
  (exists w, find (isOfType t) wallets = Some w) <-> hasType t wallets.
Proof.
  unfold hasType. split.
  - intros [w Hw]. apply find_some in Hw as [Hin Ht].
    exists w. split; [exact Hin | now apply walletClientType_eqb_eq].
  - intros [w [Hin Ht]].
    destruct (find (isOfType t) wallets) as [x|] eqn:Hf; [now exists x|].
    exfalso. now apply (proj1 (find_absent t wallets) Hf w Hin).
Qed.

Lemma find_typed (t : WalletClientType) (wallets : list WaaPWallet)
    (w : WaaPWallet) :
  find (isOfType t) wallets = Some w ->
  In w wallets /\ walletClientType w = t.
Proof.
  intros Hw. apply find_some in Hw as [Hin Ht].
  split; [exact Hin | now apply walletClientType_eqb_eq].
Qed.

Lemma identifyEmbeddedWallet_eq (wallets : list WaaPWallet) :
  identifyEmbeddedWallet wallets =
  match find (isOfType waap) wallets with
  | Some w => Some w
  | None => find (isOfType external) wallets
  end.
Proof.
  unfold identifyEmbeddedWallet. fold (isOfType external). fold (isOfType waap).
  destruct (find (isOfType waap) wallets); [reflexivity|].
  destruct (find (isOfType external) wallets); reflexivity.
Qed.

Lemma getPrimaryWallet_eq (wallets : list WaaPWallet) :
  getPrimaryWallet wallets = identifyEmbeddedWallet wallets.
Proof.
  unfold getPrimaryWallet. now destruct (identifyEmbeddedWallet wallets).
Qed.

Lemma identifySmartWallet_eq (wallets : list WaaPWallet) :
  identifySmartWallet wallets = find (isOfType waap) wallets.
Proof.
  unfold identifySmartWallet. fold (isOfType waap).
  now destruct (find (isOfType waap) wallets).
Qed.

Lemma getPrimaryWalletAddress_eq (wallets : list WaaPWallet) :
  getPrimaryWalletAddress wallets = addressOf (getPrimaryWallet wallets).
Proof.
  rewrite getPrimaryWallet_eq. unfold getPrimaryWalletAddress.
  now destruct (identifyEmbeddedWallet wallets).
Qed.

(** X1.  The primary wallet is the first WaaP wallet of the list, whatever
    external wallets stand before it; without a WaaP wallet it is the
    first external one; it is [null] exactly when the list has neither.
    [identifyEmbeddedWallet] is the same selection and
    [getPrimaryWalletAddress] is the address of that wallet. *)
Theorem primary_wallet_waap_first (wallets : list WaaPWallet) :
  (forall before w after,
     wallets = before ++ w :: after ->
     (forall x, In x before -> walletClientType x <> waap) ->
     walletClientType w = waap ->
     getPrimaryWallet wallets = Some w)
  /\ (forall before w after,
        wallets = before ++ w :: after ->
        (forall x, In x wallets -> walletClientType x <> waap) ->
        (forall x, In x before -> walletClientType x <> external) ->
        walletClientType w = external ->
        getPrimaryWallet wallets = Some w)
  /\ (getPrimaryWallet wallets = None <->
      forall x, In x wallets ->
                walletClientType x <> waap /\ walletClientType x <> external)
  /\ identifyEmbeddedWallet wallets = getPrimaryWallet wallets
  /\ getPrimaryWalletAddress wallets
     = option_map (fun w => hexText (address w)) (getPrimaryWallet wallets).
Proof.
  split; [|split; [|split; [|split]]].
  - intros before w after -> Hbefore Hw.
    rewrite getPrimaryWallet_eq, identifyEmbeddedWallet_eq.
    now rewrite (@find_first waap before after w Hbefore Hw).
  - intros before w after Heq Hnone Hbefore Hw.
    rewrite getPrimaryWallet_eq, identifyEmbeddedWallet_eq.
    rewrite (proj2 (find_absent waap wallets) Hnone). subst wallets.
    now rewrite (@find_first external before after w Hbefore Hw).
  - rewrite getPrimaryWallet_eq, identifyEmbeddedWallet_eq. split.
    + intros H x Hx.
      destruct (find (isOfType waap) wallets) eqn:Hw; [discriminate|].
      split; [now apply (proj1 (find_absent waap wallets) Hw)
             | now apply (proj1 (find_absent external wallets) H)].
    + intros H.
      rewrite (proj2 (find_absent waap wallets) (fun x Hx => proj1 (H x Hx))).
      apply find_absent. intros x Hx. apply (H x Hx).
  - symmetry. apply getPrimaryWallet_eq.
  - apply getPrimaryWalletAddress_eq.
Qed.

(** X2.  [getPrimaryWallet] and [getEOAWallet] search in opposite orders:
    they return the same wallet exactly when the list does not hold both
    a WaaP and an external wallet.  On a list with both, the primary
    wallet is a WaaP wallet and the EOA wallet an external one. *)
Theorem primary_and_EOA_wallet (wallets : list WaaPWallet) :
  (getPrimaryWallet wallets = getEOAWallet wallets <->
   ~ (hasType waap wallets /\ hasType external wallets))
  /\ (hasType waap wallets -> hasType external wallets ->
      exists p e,
        getPrimaryWallet wallets = Some p /\ walletClientType p = waap
        /\ getEOAWallet wallets = Some e /\ walletClientType e = external).
Proof.
  rewrite getPrimaryWallet_eq, identifyEmbeddedWallet_eq, getEOAWallet_eq.
  rewrite <- !find_hasType.
  destruct (find (isOfType waap) wallets) as [p|] eqn:Hp;
    destruct (find (isOfType external) wallets) as [e|] eqn:He.
  - pose proof (find_typed _ _ Hp) as [_ Tp].
    pose proof (find_typed _ _ He) as [_ Te].
    split.
    + split.
      * intros [= ->]. congruence.
      * intros H. exfalso. apply H. split; eauto.
    + intros _ _. exists p, e. now repeat split.
  - split.
    + split; [|reflexivity]. intros _ [_ [x Hx]]. discriminate.
    + intros _ [x Hx]. discriminate.
  - split.
    + split; [|reflexivity]. intros _ [[x Hx] _]. discriminate.
    + intros [x Hx]. discriminate.
  - split.
    + split; [|reflexivity]. intros _ [[x Hx] _]. discriminate.
    + intros [x Hx]. discriminate.
Qed.

(** X3.  [identifySmartWallet] returns the first WaaP wallet and never an
    external one: it is [null] exactly when the list has no WaaP wallet,
    even if external wallets are there.  Whenever it returns a wallet,
    [getPrimaryWallet] returns the same one. *)
Theorem smart_wallet_is_first_waap (wallets : list WaaPWallet) :
  (forall before w after,
     wallets = before ++ w :: after ->
     (forall x, In x before -> walletClientType x <> waap) ->
     walletClientType w = waap ->
     identifySmartWallet wallets = Some w)
  /\ (forall w, identifySmartWallet wallets = Some w ->
                walletClientType w = waap /\ getPrimaryWallet wallets = Some w)
  /\ (identifySmartWallet wallets = None <-> ~ hasType waap wallets).
Proof.
  rewrite identifySmartWallet_eq, getPrimaryWallet_eq,
    identifyEmbeddedWallet_eq.
  split; [|split].
  - intros before w after -> Hbefore Hw.
    now apply find_first.
  - intros w Hw. rewrite Hw. split; [|reflexivity].
    now apply (find_typed _ _ Hw).
  - rewrite <- find_hasType. split.
    + intros H [x Hx]. congruence.
    + intros H. destruct (find (isOfType waap) wallets) as [x|]; [|reflexivity].
      exfalso. apply H. now exists x.
Qed.

(** X4.  No selection makes a wallet up: whatever one of the four
    functions returns is an element of the list it was given, of the
    type it was searched by. *)
Theorem selected_wallet_in_list (wallets : list WaaPWallet) (w : WaaPWallet) :
  identifySmartWallet wallets = Some w
  \/ identifyEmbeddedWallet wallets = Some w
  \/ getPrimaryWallet wallets = Some w
  \/ getEOAWallet wallets = Some w ->
  In w wallets.
Proof.
  rewrite identifySmartWallet_eq, getPrimaryWallet_eq,
    identifyEmbeddedWallet_eq, getEOAWallet_eq.
  intros [H | [H | [H | H]]];
    repeat match type of H with
           | context [find ?f wallets] =>
             let E := fresh "E" in
             destruct (find f wallets) eqn:E
           end;
    try discriminate; injection H as ->;
    match goal with
    | E : find _ wallets = Some w |- _ => now apply (find_typed _ _ E)
    end.
Qed.

(** X5.  [getWalletType] answers 'waap' or 'external' only, never
    'smart-wallet' or 'embedded', and does not look at the list.  For the
    primary wallet of a list it answers 'waap' exactly when the list has
    a WaaP wallet; for the EOA wallet, exactly when the list has a WaaP
    wallet and no external one. *)
Theorem wallet_type_of_selection (wallets : list WaaPWallet) :
  (forall wallet others,
     getWalletType wallet others = getWalletType wallet wallets
     /\ (getWalletType wallet wallets = WalletType_waap
         \/ getWalletType wallet wallets = WalletType_external))
  /\ (getWalletType (getPrimaryWallet wallets) wallets = WalletType_waap
      <-> hasType waap wallets)
  /\ (getWalletType (getEOAWallet wallets) wallets = WalletType_waap
      <-> hasType waap wallets /\ ~ hasType external wallets).
Proof.
  split; [|split].
  - intros [w|] others; cbn; [|now split; [|right]].
    now destruct (walletClientType_eqb (walletClientType w) waap);
      split; [|left| |right].
  - rewrite getPrimaryWallet_eq, identifyEmbeddedWallet_eq, <- find_hasType.
    unfold getWalletType.
    destruct (find (isOfType waap) wallets) as [p|] eqn:Hp.
    + pose proof (find_typed _ _ Hp) as [_ ->]. cbn. split; eauto.
    + destruct (find (isOfType external) wallets) as [e|] eqn:He.
      * pose proof (find_typed _ _ He) as [_ ->]. cbn.
        split; [discriminate | intros [x Hx]; discriminate].
      * split; [discriminate | intros [x Hx]; discriminate].
  - rewrite getEOAWallet_eq, <- !find_hasType. unfold getWalletType.
    destruct (find (isOfType external) wallets) as [e|] eqn:He.
    + pose proof (find_typed _ _ He) as [_ ->]. cbn.
      split; [discriminate | intros [_ H]; exfalso; apply H; eauto].
    + destruct (find (isOfType waap) wallets) as [p|] eqn:Hp.
      * pose proof (find_typed _ _ Hp) as [_ ->]. cbn.
        split; [|reflexivity]. intros _. split; [eauto|].
        intros [x Hx]. discriminate.
      * split; [discriminate | intros [[x Hx] _]; discriminate].
Qed.

(** X6.  [verifySmartWallet] reports [exists] exactly when the list has a
    WaaP or an external wallet; what it reports as smart wallet and as
    embedded wallet is one and the same, the primary wallet, so that on a
    list with external wallets only the "smart wallet" is an external
    wallet; [isCreating] is always false. *)
Theorem verifySmartWallet_reports_primary (wallets : list WaaPWallet) :
  let check := verifySmartWallet wallets in
  (exists_ check = true <->
   hasType waap wallets \/ hasType external wallets)
  /\ smartWallet check = getPrimaryWallet wallets
  /\ embeddedWallet check = getPrimaryWallet wallets
  /\ isCreating check = false
  /\ message check = (if exists_ check then walletFoundMessage
                      else walletMissingMessage)
  /\ (~ hasType waap wallets -> hasType external wallets ->
      exists e, smartWallet check = Some e /\ walletClientType e = external).
Proof.
  cbv zeta. rewrite getPrimaryWallet_eq. unfold verifySmartWallet.
  rewrite identifyEmbeddedWallet_eq, <- !find_hasType.
  destruct (find (isOfType waap) wallets) as [p|] eqn:Hp.
  - cbn. repeat split; eauto.
    intros H. exfalso. apply H. eauto.
  - destruct (find (isOfType external) wallets) as [e|] eqn:He.
    + cbn. repeat split; eauto.
      intros _ _. exists e. split; [reflexivity|].
      now apply (find_typed _ _ He).
    + cbn. repeat split; try discriminate.
      * intros [[x Hx] | [x Hx]]; discriminate.
      * intros _ [x Hx]. discriminate.
Qed.

End MoreWalletFacts.

(* ================================================================== *)
(** * The properties at concrete payments *)
(* ================================================================== *)

#[local] Existing Instance demoViem.
#[local] Existing Instance demoCelo.

(** What [parseFloat] makes of some amounts: no number at the start is
    [NaN]; a number followed by text is that number, so that it passes
    the validation and fails later, in [parseEther]. *)
Example amounts_read :
  map (fun s => amountRejected (lit s))
      ["abc"; ""; "-5"; "0"; "0.0"; "1e-400"; "1abc"; "10.5"; " 7"]%string
  = [true; true; true; true; true; true; false; false; false].
Proof. vm_compute. reflexivity. Qed.

Example trailing_text_fails_in_conversion :
  @run demoViem demoCelo settledClient trailingTextParams
  = (Normal {| success := false;
               transactionHash := None;
               error := Some (@InvalidDecimalNumberError demoViem (lit "1abc"));
               explorerUrl := None |},
     [paymentErrorLine
        (ErrorObject (@InvalidDecimalNumberError demoViem (lit "1abc")))]).
Proof. vm_compute. reflexivity. Qed.

(** The result of the downgrade is the result of a settled payment whose
    hash is the operation identifier: nothing in it tells the two
    apart. *)
Example downgrade_indistinguishable :
  fst (@run demoViem demoCelo codepointClient nativeParams)
  = fst (@run demoViem demoCelo sameHashClient nativeParams).
Proof. vm_compute. reflexivity. Qed.

(** C1, as stated, fails here: the wait fails with the message of the
    WaaP report, which contains "invalid codepoint"; the result is the
    success result of the operation identifier and carries no caveat. *)
Lemma codepoint_result_without_caveat :
  contains codepointMessage INVALID_CODEPOINT
  /\ exists r t,
       @run demoViem demoCelo codepointClient nativeParams = (Normal r, t)
       /\ success r = true
       /\ transactionHash r = Some demoUserOpHash
       /\ ~ carriesCaveat r.
Proof.
  split.
  - apply includes_contains. vm_compute. reflexivity.
  - do 2 eexists. split; [vm_compute; reflexivity|].
    repeat split. intros [text Htext]. discriminate Htext.
Qed.

Lemma codepoint_failure_downgraded_witness :
  @run demoViem demoCelo codepointClient nativeParams =
  (Normal {| success := true;
             transactionHash := Some demoUserOpHash;
             error := None;
             explorerUrl := Some (getCeloExplorerUrl demoUserOpHash txKind) |},
   [SendUserOperation [demoNativeCall];
    WaitForUserOperationReceipt demoUserOpHash;
    receiptWaitWarning]).
Proof.
  apply (@codepoint_failure_downgraded demoViem demoCelo codepointClient
           nativeParams [demoNativeCall] demoUserOpHash codepointMessage).
  - vm_compute. left. reflexivity.
  - reflexivity.
  - reflexivity.
  - apply includes_contains. vm_compute. reflexivity.
Defined.

(** C3, as stated, fails here: the recipient is no hexadecimal address,
    yet it passes the check, the operation is submitted and the payment
    succeeds. *)
Lemma non_hex_recipient_submitted :
  addressRegex nonHexRecipient = false
  /\ @run demoViem demoCelo settledClient nonHexParams =
     (Normal {| success := true;
                transactionHash := Some demoTxHash;
                error := None;
                explorerUrl := Some (getCeloExplorerUrl demoTxHash txKind) |},
      [SendUserOperation [ {| call_to := nonHexRecipient;
                              call_value := 1000000000000000000%Z;
                              call_data := hexPrefix |} ];
       WaitForUserOperationReceipt demoUserOpHash]).
Proof. split; vm_compute; reflexivity. Qed.

Lemma malformed_recipient_rejected_witness :
  @run demoViem demoCelo settledClient shortRecipientParams =
  (Normal {| success := false;
             transactionHash := None;
             error := Some invalidAddressMessage;
             explorerUrl := None |},
   []).
Proof.
  apply (@malformed_recipient_rejected demoViem demoCelo).
  right. right. vm_compute. discriminate.
Defined.

Lemma invalid_amount_rejected_witness :
  @run demoViem demoCelo settledClient textAmountParams =
  (Normal {| success := false;
             transactionHash := None;
             error := Some (if addressRejected (to textAmountParams)
                            then invalidAddressMessage
                            else invalidAmountMessage);
             explorerUrl := None |},
   []).
Proof.
  apply (proj1 (@invalid_amount_rejected demoViem demoCelo settledClient
                  textAmountParams)).
  left. vm_compute. reflexivity.
Defined.

(** C4, as stated, fails here.  The amount "1abc" is no number, yet
    [parseFloat] reads the 1 at its start and the validation lets it
    pass: the failure comes from [parseEther] through the outer [catch],
    after a line of [console.error], and its text is not the
    invalid-amount one.  And the amount "abc", which [parseFloat] reads
    as [NaN], gives the invalid-address text when the recipient is too
    short. *)
Lemma non_numeric_amount_passes_validation :
  isDecimalNumber (amount trailingTextParams) = false
  /\ amountRejected (amount trailingTextParams) = false
  /\ (exists m,
        @run demoViem demoCelo settledClient trailingTextParams =
        (Normal {| success := false;
                   transactionHash := None;
                   error := Some m;
                   explorerUrl := None |},
         [paymentErrorLine (ErrorObject m)])
        /\ m <> invalidAmountMessage)
  /\ isNaN (parseFloat (amount textAmountShortRecipientParams)) = true
  /\ @run demoViem demoCelo settledClient textAmountShortRecipientParams =
     (Normal {| success := false;
                transactionHash := None;
                error := Some invalidAddressMessage;
                explorerUrl := None |},
      [])
  /\ invalidAddressMessage <> invalidAmountMessage.
Proof.
  split; [|split; [|split; [|split; [|split]]]].
  - vm_compute. reflexivity.
  - vm_compute. reflexivity.
  - eexists. split; [vm_compute; reflexivity|].
    intros H. vm_compute in H. discriminate H.
  - vm_compute. reflexivity.
  - vm_compute. reflexivity.
  - intros H. vm_compute in H. discriminate H.
Qed.

(** The error of viem quotes the amount, and so the encoding error is
    found in an amount that spells it: the payment fails in [parseEther],
    before anything is sent, with the text saying that the transaction
    was sent. *)
Example codepoint_amount_reported_as_sent :
  amountRejected (amount codepointAmountParams) = false
  /\ @run demoViem demoCelo settledClient codepointAmountParams =
     (Normal {| success := false;
                transactionHash := None;
                error := Some responseProcessingMessage;
                explorerUrl := None |},
      [topLevelWarning]).
Proof. split; vm_compute; reflexivity. Qed.

Lemma token_call_object_witness :
  currency tokenParams <> CELO
  /\ networkCalls (snd (@run demoViem demoCelo settledClient tokenParams)) =
     SendUserOperation [ {| call_to := cUSD_address;
                            call_value := 0%Z;
                            call_data := demoTokenData |} ]
     :: match sendUserOperation settledClient
                [ {| call_to := cUSD_address;
                     call_value := 0%Z;
                     call_data := demoTokenData |} ] with
        | Normal h => [WaitForUserOperationReceipt h]
        | Throw _ => []
        end.
Proof.
  assert (H : currency tokenParams <> CELO) by (vm_compute; discriminate).
  split; [exact H|].
  apply (proj2 (@token_call_object demoViem demoCelo settledClient
                  tokenParams H)
           cUSD_address 10500000000000000000%Z demoTokenData);
    vm_compute; reflexivity.
Defined.

Lemma native_call_object_witness :
  currency nativeParams = CELO
  /\ networkCalls (snd (@run demoViem demoCelo settledClient nativeParams)) =
     SendUserOperation [ {| call_to := to nativeParams;
                            call_value := 1000000000000000000%Z;
                            call_data := lit "0x" |} ]
     :: match sendUserOperation settledClient
                [ {| call_to := to nativeParams;
                     call_value := 1000000000000000000%Z;
                     call_data := lit "0x" |} ] with
        | Normal h => [WaitForUserOperationReceipt h]
        | Throw _ => []
        end.
Proof.
  assert (H : currency nativeParams = CELO) by reflexivity.
  split; [exact H|].
  apply (proj2 (@native_call_object demoViem demoCelo settledClient
                  nativeParams H) 1000000000000000000%Z);
    vm_compute; reflexivity.
Defined.

(** C7, as stated, fails here: the message contains "billing plan" and is
    no encoding error, yet the result is the funding guidance, because
    the message also has "fund" in it. *)
Lemma billing_plan_with_funds :
  contains quotaAndFundsMessage BILLING_PLAN
  /\ isEncodingError (ErrorObject quotaAndFundsMessage) = false
  /\ fst (@run demoViem demoCelo quotaAndFundsClient nativeParams) =
     Normal {| success := false;
               transactionHash := None;
               error := Some (fundingGuidance quotaAndFundsMessage);
               explorerUrl := None |}
  /\ fundingGuidance quotaAndFundsMessage <> sponsorshipGuidance.
Proof.
  split; [|split; [|split]].
  - apply includes_contains. vm_compute. reflexivity.
  - vm_compute. reflexivity.
  - vm_compute. reflexivity.
  - vm_compute. discriminate.
Qed.

Lemma confirmation_failure_guidance_witness :
  fst (@run demoViem demoCelo fundsClient nativeParams) =
  Normal {| success := false;
            transactionHash := None;
            error := Some (fundingGuidance fundsMessage);
            explorerUrl := None |}.
Proof.
  assert (Hin : In (SendUserOperation [demoNativeCall])
                   (snd (@run demoViem demoCelo fundsClient nativeParams)))
    by (vm_compute; left; reflexivity).
  assert (He : isEncodingError (ErrorObject fundsMessage) = false)
    by (vm_compute; reflexivity).
  refine (proj1 (proj2 (@confirmation_failure_guidance demoViem demoCelo
                          fundsClient nativeParams [demoNativeCall]
                          demoUserOpHash fundsMessage Hin eq_refl eq_refl He))
            _).
  apply includes_contains. vm_compute. reflexivity.
Defined.

Lemma other_encoding_signatures_downgraded_witness :
  fst (@run demoViem demoCelo continuationClient nativeParams) =
  Normal {| success := true;
            transactionHash := Some demoUserOpHash;
            error := None;
            explorerUrl := Some (getCeloExplorerUrl demoUserOpHash txKind) |}.
Proof.
  assert (Hmsg : contains (lit "missing continuation byte")
                   MISSING_CONTINUATION_BYTE \/
                 contains (lit "missing continuation byte") STRINGS_5_7_0).
  { left. apply includes_contains. vm_compute. reflexivity. }
  apply (proj2 (@other_encoding_signatures_downgraded demoViem demoCelo
                  (lit "missing continuation byte") Hmsg)
           continuationClient nativeParams [demoNativeCall] demoUserOpHash).
  - vm_compute. left. reflexivity.
  - reflexivity.
  - reflexivity.
Defined.

(** A receipt without a hash, and the EOA of a list with both kinds of
    wallet. *)
Example empty_receipt_fails :
  fst (@run demoViem demoCelo emptyReceiptClient nativeParams) =
  Normal {| success := false;
            transactionHash := None;
            error := Some missingHashMessage;
            explorerUrl := None |}.
Proof. vm_compute. reflexivity. Qed.

Example external_after_waap :
  getEOAWallet [demoWaapWallet; demoExternalWallet] = Some demoExternalWallet
  /\ getEOAAddress [demoWaapWallet; demoExternalWallet]
     = Some (lit "0x00000000000000000000000000000000000000bb")
  /\ getEOAWallet [demoWaapWallet] = Some demoWaapWallet
  /\ getEOAAddress [] = None.
Proof. vm_compute. repeat split. Qed.

(* ================================================================== *)
(** * The further properties at concrete inputs *)
(* ================================================================== *)

Lemma selected_wallet_in_list_witness :
  In demoExternalWallet [demoWaapWallet; demoExternalWallet].
Proof.
  apply (@selected_wallet_in_list [demoWaapWallet; demoExternalWallet]
           demoExternalWallet).
  right. right. right. vm_compute. reflexivity.
Defined.

Lemma settled_payment_witness :
  @run demoViem demoCelo settledClient nativeParams =
  (Normal {| success := true;
             transactionHash := Some demoTxHash;
             error := None;
             explorerUrl := Some (getCeloExplorerUrl demoTxHash txKind) |},
   [SendUserOperation [demoNativeCall];
    WaitForUserOperationReceipt demoUserOpHash]).
Proof.
  apply (@settled_payment demoViem demoCelo settledClient nativeParams
           [demoNativeCall] demoUserOpHash (settledReceipt demoTxHash)
           demoTxHash).
  - vm_compute. left. reflexivity.
  - reflexivity.
  - reflexivity.
  - reflexivity.
  - vm_compute. reflexivity.
Defined.

Lemma rejected_submission_fails_witness :
  fst (@run demoViem demoCelo submissionRejectedClient nativeParams) =
  Normal {| success := false;
            transactionHash := None;
            error := Some (if isEncodingError (ErrorObject codepointMessage)
                           then responseProcessingMessage
                           else guidanceFor (ErrorObject codepointMessage));
            explorerUrl := None |}
  /\ networkCalls (snd (@run demoViem demoCelo submissionRejectedClient
                          nativeParams))
     = [SendUserOperation [demoNativeCall]].
Proof.
  apply (@rejected_submission_fails demoViem demoCelo
           submissionRejectedClient nativeParams [demoNativeCall]
           (ErrorObject codepointMessage)).
  - vm_compute. left. reflexivity.
  - reflexivity.
Defined.

Lemma non_error_rejection_unknown_witness :
  fst (@run demoViem demoCelo thrownTextClient nativeParams) =
  Normal {| success := false;
            transactionHash := None;
            error := Some unknownErrorMessage;
            explorerUrl := None |}.
Proof.
  apply (@non_error_rejection_unknown demoViem demoCelo thrownTextClient
           nativeParams [demoNativeCall] true (lit "insufficient funds")).
  - vm_compute. left. reflexivity.
  - vm_compute. reflexivity.
  - right. exists demoUserOpHash. split; reflexivity.
Defined.

Lemma unconfigured_token_rejected_witness :
  @run demoViem demoCelo settledClient usdtParams =
  (Normal {| success := false;
             transactionHash := None;
             error := Some (notConfiguredMessage
                              (currencyName (currency usdtParams)));
             explorerUrl := None |},
   []).
Proof.
  apply (@unconfigured_token_rejected demoViem demoCelo).
  - vm_compute. reflexivity.
  - vm_compute. reflexivity.
  - vm_compute. discriminate.
  - reflexivity.
Defined.

Lemma call_value_never_negative_witness :
  (0 <= call_value demoNativeCall)%Z
  /\ (currency nativeParams <> CELO ->
      call_value demoNativeCall = 0%Z
      /\ (0 <= transferAmountOf (call_data demoNativeCall) <= MAX_UINT256)%Z).
Proof.
  apply (@call_value_never_negative demoViem demoCelo settledClient
           nativeParams [demoNativeCall] demoNativeCall).
  - vm_compute. left. reflexivity.
  - left. reflexivity.
Defined.

Lemma token_recipient_checked_by_encoder_witness :
  networkCalls (snd (@run demoViem demoCelo settledClient nonHexTokenParams))
  = []
  /\ exists m,
       fst (@run demoViem demoCelo settledClient nonHexTokenParams) =
       Normal {| success := false;
                 transactionHash := None;
                 error := Some m;
                 explorerUrl := None |}.
Proof.
  apply (@token_recipient_checked_by_encoder demoViem demoCelo).
  - vm_compute. discriminate.
  - vm_compute. reflexivity.
Defined.

Lemma sender_field_ignored_witness :
  @run demoViem demoCelo settledClient nativeParams
  = @run demoViem demoCelo settledClient otherSenderParams.
Proof.
  apply (@sender_field_ignored demoViem demoCelo);
    vm_compute; reflexivity.
Defined.

Lemma plain_failure_message_kept_witness :
  fst (@run demoViem demoCelo timeoutClient nativeParams) =
  Normal {| success := false;
            transactionHash := None;
            error := Some timeoutMessage;
            explorerUrl := None |}.
Proof.
  apply (@plain_failure_message_kept demoViem demoCelo timeoutClient
           nativeParams [demoNativeCall] timeoutMessage).
  - vm_compute. left. reflexivity.
  - vm_compute. reflexivity.
  - vm_compute. reflexivity.
  - vm_compute. reflexivity.
  - right. exists demoUserOpHash. split; reflexivity.
Defined.

Lemma non_decimal_amount_fails_witness :
  networkCalls (snd (@run demoViem demoCelo settledClient exponentParams)) = []
  /\ (exists m,
        fst (@run demoViem demoCelo settledClient exponentParams) =
        Normal {| success := false;
                  transactionHash := None;
                  error := Some m;
                  explorerUrl := None |})
  /\ (addressRejected (to exponentParams) = false ->
      amountRejected (amount exponentParams) = false ->
      currency exponentParams = CELO
      \/ notSet (CELO_STABLE_TOKENS (currency exponentParams)) = false ->
      @run demoViem demoCelo settledClient exponentParams =
      onError (ErrorObject (InvalidDecimalNumberError (amount exponentParams)))
        []).
Proof.
  apply (@non_decimal_amount_fails demoViem demoCelo).
  vm_compute. reflexivity.
Defined.

(** An amount with an exponent passes the validation. *)
Example exponent_amount_accepted :
  amountRejected (amount exponentParams) = false.
Proof. vm_compute. reflexivity. Qed.

(** A dust amount passes the validation and is submitted with the native
    value 0. *)
Example dust_amount_sent_as_zero :
  networkCalls
    (snd (@run demoViem demoCelo settledClient
            (demoParams demoRecipient (lit "0.0000000000000000001") CELO)))
  = [SendUserOperation [ {| call_to := demoRecipient;
                            call_value := 0%Z;
                            call_data := hexPrefix |} ];
     WaitForUserOperationReceipt demoUserOpHash].
Proof. vm_compute. reflexivity. Qed.

Lemma no_provider_nothing_sent_witness :
  @sendCELOPayment demoViem demoCelo noBrowser demoWaapWallet nativeParams
    None [] =
  (Normal {| success := false;
             transactionHash := None;
             error := Some providerMissingMessage;
             explorerUrl := None |},
   [WalletConsoleError
      [str paymentErrorLabel; ErrorObject providerMissingMessage]])
  /\ @sendStablecoinPayment demoViem demoCelo noBrowser demoWaapWallet
       nativeParams [] =
     (Normal {| success := false;
                transactionHash := None;
                error := Some providerMissingMessage;
                explorerUrl := None |},
      []).
Proof.
  apply (@no_provider_nothing_sent demoViem demoCelo noBrowser).
  reflexivity.
Defined.

Lemma sendCELOPayment_sends_unvalidated_witness :
  (exists rest,
     snd (@sendCELOPayment demoViem demoCelo acceptingBrowser demoWaapWallet
            negativeParams None []) =
     SendTransaction (hexText (address (targetWalletOf demoWaapWallet None)))
       {| tx_to := Some (to negativeParams);
          tx_value := Some (-1500000000000000000)%Z;
          tx_data := None |}
     :: rest)
  /\ (forall ip fp,
        forallb isDigit ip = true -> forallb isDigit fp = true ->
        (List.length fp <= 18)%nat ->
        amount negativeParams = MINUS :: ip ++ DOT :: fp ->
        (-1500000000000000000)%Z = (- scaleBy18 ip fp)%Z).
Proof.
  apply (@sendCELOPayment_sends_unvalidated demoViem demoCelo
           acceptingBrowser demoWaapWallet negativeParams None
           acceptingProvider (-1500000000000000000)%Z).
  - reflexivity.
  - vm_compute. reflexivity.
Defined.

Lemma sendCELOPayment_ignores_currency_witness :
  @sendCELOPayment demoViem demoCelo acceptingBrowser demoWaapWallet
    nativeParams None []
  = @sendCELOPayment demoViem demoCelo acceptingBrowser demoWaapWallet
      nativeAmountAsTokenParams None [].
Proof.
  apply (@sendCELOPayment_ignores_currency demoViem demoCelo
           acceptingBrowser); vm_compute; reflexivity.
Defined.

Lemma direct_payment_error_verbatim_witness :
  fst (@sendCELOPayment demoViem demoCelo rejectingBrowser demoWaapWallet
         nativeParams None []) =
  Normal {| success := false;
            transactionHash := None;
            error := Some codepointMessage;
            explorerUrl := None |}.
Proof.
  apply (@direct_payment_error_verbatim demoViem demoCelo rejectingBrowser
           demoWaapWallet nativeParams None demoWaapAccount
           demoNativeRequest (ErrorObject codepointMessage)).
  - vm_compute. left. reflexivity.
  - intros waapProvider H. injection H as <-. reflexivity.
Defined.

Lemma stablecoin_request_witness :
  demoWaapAccount = hexText (address demoWaapWallet)
  /\ tx_to demoEuroRequest =
     (if match currency usdtParams with
         | cUSD => true
         | _ => false
         end
      then @CELO_STABLE_TOKENS twoTokenCelo cUSD
      else @CELO_STABLE_TOKENS twoTokenCelo cEUR)
  /\ tx_value demoEuroRequest = None
  /\ exists amountInWei data,
       @parseUnits demoViem (amount usdtParams) 18 = Normal amountInWei
       /\ @encodeFunctionData demoViem (to usdtParams) amountInWei
          = Normal data
       /\ tx_data demoEuroRequest = Some data
       /\ transferAmountOf data = amountInWei
       /\ transferRecipientOf data = toLowerCase (to usdtParams).
Proof.
  apply (@stablecoin_request demoViem twoTokenCelo acceptingBrowser
           demoWaapWallet usdtParams demoWaapAccount demoEuroRequest).
  vm_compute. left. reflexivity.
Defined.
